(** * Mergington High School activities: enrollment and seeding

    A shallow embedding of [src/models.py], [src/database.py], [src/app.py]
    and [migrate.py].

    - Rows are records, tables are lists of rows in insertion order.
    - A request runs in a session: the committed store, the working copy
      of the open transaction, a budget of storage operations that still
      succeed (the fault model) and a counter of commits.
    - Python exceptions are values of [exn]; handlers are written with
      [try_except] in the order of the source.
    - Strings are byte strings; [str.lower] and [str.strip] are modelled on
      ASCII.
    - Relationship collections are read as the join of the association
      table with the users table. *)

From Stdlib Require Import List String Ascii Bool Arith ZArith Lia.
Import ListNotations.
Open Scope string_scope.

Set Implicit Arguments.

(* ------------------------------------------------------------------ *)
(** ** Strings *)

Module Str.

Definition is_upper (c : ascii) : bool :=
  let n := nat_of_ascii c in ((65 <=? n) && (n <=? 90))%nat.

Definition is_lower (c : ascii) : bool :=
  let n := nat_of_ascii c in ((97 <=? n) && (n <=? 122))%nat.

Definition lower_char (c : ascii) : ascii :=
  if is_upper c then ascii_of_nat (nat_of_ascii c + 32) else c.

(** [str.lower()] *)
Fixpoint lower (s : string) : string :=
  match s with
  | EmptyString => EmptyString
  | String c r => String (lower_char c) (lower r)
  end.

(** Whitespace as [str.strip()] sees it in the ASCII range. *)
Definition is_space (c : ascii) : bool :=
  let n := nat_of_ascii c in
  (((9 <=? n) && (n <=? 13)) || ((28 <=? n) && (n <=? 32)))%nat.

Fixpoint lstrip (s : string) : string :=
  match s with
  | EmptyString => EmptyString
  | String c r => if is_space c then lstrip r else s
  end.

Fixpoint rev_append (s acc : string) : string :=
  match s with
  | EmptyString => acc
  | String c r => rev_append r (String c acc)
  end.

Definition rev (s : string) : string := rev_append s EmptyString.

Definition rstrip (s : string) : string := rev (lstrip (rev s)).

(** [str.strip()] *)
Definition strip (s : string) : string := rstrip (lstrip s).

Fixpoint contains_char (x : ascii) (s : string) : bool :=
  match s with
  | EmptyString => false
  | String c r => Ascii.eqb c x || contains_char x r
  end.

(** The string without its last character (the empty string stays). *)
Fixpoint drop_last (s : string) : string :=
  match s with
  | EmptyString => EmptyString
  | String c EmptyString => EmptyString
  | String c r => String c (drop_last r)
  end.

Fixpoint last_char (s : string) : option ascii :=
  match s with
  | EmptyString => None
  | String c EmptyString => Some c
  | String _ r => last_char r
  end.

End Str.

(* ------------------------------------------------------------------ *)
(** ** Regular expressions, as far as [re.match] is used by the models *)

Module Re.

Inductive regex : Type :=
| Void : regex                      (* matches nothing *)
| Eps : regex                       (* the empty string *)
| Chr : ascii -> regex              (* a literal character *)
| NotChr : ascii -> regex           (* [^c] *)
| Cat : regex -> regex -> regex
| Alt : regex -> regex -> regex
| Star : regex -> regex.

(** [r+] *)
Definition Plus (r : regex) : regex := Cat r (Star r).

Fixpoint nullable (r : regex) : bool :=
  match r with
  | Void => false
  | Eps => true
  | Chr _ => false
  | NotChr _ => false
  | Cat a b => nullable a && nullable b
  | Alt a b => nullable a || nullable b
  | Star _ => true
  end.

(** Brzozowski derivative. *)
Fixpoint deriv (c : ascii) (r : regex) : regex :=
  match r with
  | Void => Void
  | Eps => Void
  | Chr x => if Ascii.eqb c x then Eps else Void
  | NotChr x => if Ascii.eqb c x then Void else Eps
  | Cat a b =>
      if nullable a
      then Alt (Cat (deriv c a) b) (deriv c b)
      else Cat (deriv c a) b
  | Alt a b => Alt (deriv c a) (deriv c b)
  | Star a => Cat (deriv c a) (Star a)
  end.

Fixpoint derivs (s : string) (r : regex) : regex :=
  match s with
  | EmptyString => r
  | String c t => derivs t (deriv c r)
  end.

(** The whole of [s] is in the language of [r]. *)
Definition fullmatch (r : regex) (s : string) : bool := nullable (derivs s r).

Definition newline : ascii := ascii_of_nat 10.

(** [re.match('^' r '$', s)]: without [re.MULTILINE], [$] matches at the
    end of the string and also just before a newline that ends it. *)
Definition match_anchored (r : regex) (s : string) : bool :=
  fullmatch r s
  || match Str.last_char s with
     | Some c => Ascii.eqb c newline && fullmatch r (Str.drop_last s)
     | None => false
     end.

(** [needs x r]: a syntactic check that every string of [r] contains [x]. *)
Fixpoint needs (x : ascii) (r : regex) : bool :=
  match r with
  | Void => true
  | Eps => false
  | Chr c => Ascii.eqb c x
  | NotChr _ => false
  | Cat a b => needs x a || needs x b
  | Alt a b => needs x a && needs x b
  | Star _ => false
  end.

(** [caseless r]: no literal of [r] is a letter. *)
Fixpoint caseless (r : regex) : bool :=
  match r with
  | Void | Eps => true
  | Chr c | NotChr c => negb (Str.is_upper c) && negb (Str.is_lower c)
  | Cat a b | Alt a b => caseless a && caseless b
  | Star a => caseless a
  end.

End Re.

(* ------------------------------------------------------------------ *)
(** ** Exceptions and results *)

Inductive exn : Type :=
| HTTPException (status_code : Z) (detail : string)
| ValueError (msg : string)
| IntegrityError (constraint : string)
| SQLAlchemyError (msg : string).

Inductive result (A : Type) : Type :=
| Ok : A -> result A
| Raise : exn -> result A.
Arguments Ok {A} _.
Arguments Raise {A} _.

(* ------------------------------------------------------------------ *)
(** ** [src/models.py]: rows and validators *)

Definition timestamp := nat.

Module User.

Record t : Type := mk {
  id : nat;
  email : string;
  name : option string;
  grade : option string;
  student_id : option string;
  role : string;
  created_at : timestamp
}.

(** [r'^[^@]+@[^@]+\.[^@]+$'] without its anchors. *)
Definition email_pattern : Re.regex :=
  Re.Cat (Re.Plus (Re.NotChr "@"))
    (Re.Cat (Re.Chr "@")
       (Re.Cat (Re.Plus (Re.NotChr "@"))
          (Re.Cat (Re.Chr ".") (Re.Plus (Re.NotChr "@"))))).

Definition validate_email (address : string) : result string :=
  if negb (Re.match_anchored email_pattern address)
  then Raise (ValueError "Invalid email format")
  else Ok (Str.lower address).

Definition valid_roles : list string := ["student"; "teacher"; "admin"].

Definition validate_role (role : string) : result string :=
  if negb (existsb (String.eqb role) valid_roles)
  then Raise (ValueError "Role must be one of: {'student', 'teacher', 'admin'}")
  else Ok role.

End User.

Module Activity.

Record t : Type := mk {
  id : nat;
  name : string;
  description : string;
  schedule : string;
  max_participants : Z;
  created_at : timestamp;
  created_by : option nat
}.

Definition validate_max_participants (value : Z) : result Z :=
  if (value <=? 0)%Z
  then Raise (ValueError "Maximum participants must be greater than 0")
  else Ok value.

Definition validate_name (name : string) : result string :=
  if (String.length (Str.strip name) <? 3)%nat
  then Raise (ValueError "Activity name must be at least 3 characters long")
  else Ok (Str.strip name).

(** The properties read [self.participants]; here the loaded collection
    is an argument. *)
Definition available_spots (a : t) (participants : list User.t) : Z :=
  (max_participants a - Z.of_nat (List.length participants))%Z.

Definition is_full (a : t) (participants : list User.t) : bool :=
  (Z.of_nat (List.length participants) >=? max_participants a)%Z.

End Activity.

(** A row of the association table [activity_participants]. *)
Record Enrollment : Type := mkEnrollment {
  activity_id : nat;
  user_id : nat;
  enrolled_at : timestamp
}.

(** The three tables. *)
Record Store : Type := mkStore {
  activities : list Activity.t;
  users : list User.t;
  activity_participants : list Enrollment
}.

Definition empty_store : Store := mkStore [] [] [].

Definition insert_activity (db : Store) (a : Activity.t) : Store :=
  mkStore (activities db ++ [a]) (users db) (activity_participants db).

Definition insert_user (db : Store) (u : User.t) : Store :=
  mkStore (activities db) (users db ++ [u]) (activity_participants db).

Definition insert_enrollment (db : Store) (e : Enrollment) : Store :=
  mkStore (activities db) (users db) (activity_participants db ++ [e]).

Definition is_pair (aid uid : nat) (e : Enrollment) : bool :=
  Nat.eqb (activity_id e) aid && Nat.eqb (user_id e) uid.

Definition delete_enrollment (db : Store) (aid uid : nat) : Store :=
  mkStore (activities db) (users db)
          (filter (fun e => negb (is_pair aid uid e)) (activity_participants db)).

Definition enrolled_in (rows : list Enrollment) (aid uid : nat) : bool :=
  existsb (is_pair aid uid) rows.

(** The relationship [Activity.participants]: users joined through the
    association table. *)
Definition participants_of (db : Store) (a : Activity.t) : list User.t :=
  filter (fun u => enrolled_in (activity_participants db) (Activity.id a) (User.id u))
         (users db).

(** An [Activity] object with its [participants] collection loaded
    ([selectinload]). *)
Record LoadedActivity : Type := mkLoaded {
  row : Activity.t;
  participants : list User.t
}.

Definition find_activity (nm : string) (db : Store) : option Activity.t :=
  find (fun a => String.eqb (Activity.name a) nm) (activities db).

Definition find_user (em : string) (db : Store) : option User.t :=
  find (fun u => String.eqb (User.email u) em) (users db).

(** Integer primary keys: one more than the largest key in the table. *)
Definition next_id (ids : list nat) : nat := S (list_max ids).

(** [user in activity.participants] *)
Definition user_in (u : User.t) (ps : list User.t) : bool :=
  existsb (fun p => Nat.eqb (User.id p) (User.id u)) ps.

(* ------------------------------------------------------------------ *)
(** ** Sessions *)

Record Session : Type := mkSession {
  committed : Store;          (* what the database holds *)
  working : Store;            (* the view inside the open transaction *)
  budget : option nat;        (* storage operations that still succeed;
                                 [None]: the storage never fails *)
  commits : nat               (* commits performed so far *)
}.

Definition M (A : Type) : Type := Session -> result A * Session.

Definition ret {A} (a : A) : M A := fun s => (Ok a, s).

Definition raise {A} (e : exn) : M A := fun s => (Raise e, s).

Definition bind {A B} (m : M A) (k : A -> M B) : M B :=
  fun s =>
    match m s with
    | (Ok a, s') => k a s'
    | (Raise e, s') => (Raise e, s')
    end.

Declare Scope session_scope.
Delimit Scope session_scope with session.
Notation "x <- m ;; k" := (bind m (fun x => k))
  (at level 61, m at next level, right associativity) : session_scope.
Notation "m ;;; k" := (bind m (fun _ => k))
  (at level 61, right associativity) : session_scope.
Open Scope session_scope.

Definition lift {A} (r : result A) : M A := fun s => (r, s).

(** [try: m except ...: h]: [handler e] is the body of the first clause
    that catches [e], if any. The handler runs in the state the
    exception left. *)
Definition try_except {A} (m : M A) (handler : exn -> option (M A)) : M A :=
  fun s =>
    match m s with
    | (Ok a, s') => (Ok a, s')
    | (Raise e, s') =>
        match handler e with
        | Some h => h s'
        | None => (Raise e, s')
        end
    end.

(** [try: m finally: f] *)
Definition finally {A} (m : M A) (f : Session -> Session) : M A :=
  fun s => let (r, s') := m s in (r, f s').

(** One operation against the storage. *)
Definition io : M unit :=
  fun s =>
    match budget s with
    | None => (Ok tt, s)
    | Some O => (Raise (SQLAlchemyError "storage operation failed"), s)
    | Some (S n) =>
        (Ok tt, mkSession (committed s) (working s) (Some n) (commits s))
    end.

Definition read {A} (q : Store -> A) : M A :=
  fun s => (Ok (q (working s)), s).

Definition modify (f : Store -> Store) : M unit :=
  fun s => (Ok tt, mkSession (committed s) (f (working s)) (budget s) (commits s)).

(** [await session.execute(select ...)] *)
Definition execute {A} (q : Store -> A) : M A := io ;;; read q.

(** [await session.commit()] *)
Definition commit : M unit :=
  io ;;;
  fun s => (Ok tt, mkSession (working s) (working s) (budget s) (S (commits s))).

Definition discard (s : Session) : Session :=
  mkSession (committed s) (committed s) (budget s) (commits s).

(** [await session.rollback()] *)
Definition rollback : M unit := fun s => (Ok tt, discard s).

(** A session that has nothing pending on [db]. *)
Definition idle (faults : option nat) (db : Store) : Session :=
  mkSession db db faults 0.

Fixpoint for_each {A} (l : list A) (body : A -> M unit) : M unit :=
  match l with
  | [] => ret tt
  | x :: rest => body x ;;; for_each rest body
  end.

(** [async with AsyncSessionLocal() as session: body]: a new session sees
    the committed store; leaving the block closes the session, which
    drops whatever was not committed. *)
Definition with_session {A} (body : M A) : M A :=
  fun s => finally body discard (discard s).

(** [Depends(get_db)] around a request handler: on an exception the
    session is rolled back and the exception re-raised; the session is
    closed in every case. *)
Definition get_db {A} (handler : M A) : M A :=
  fun s =>
    finally (try_except handler (fun e => Some (rollback ;;; raise e))) discard
            (discard s).

(* ------------------------------------------------------------------ *)
(** ** Writes, with the constraints of the tables

    A pending change is applied to the working copy at once, and the
    constraint error that the next flush would raise is raised here: no
    commit lies between a change and its flush, so the outcome is the
    same. *)

(** The row of a new [User(email=...)]: the other columns take their
    defaults. *)
Definition new_user (db : Store) (em : string) (now : timestamp) : User.t :=
  User.mk (next_id (map User.id (users db))) em None None None "student" now.

(** [session.add(user); await session.flush()] for [User(email=...)],
    whose [email] attribute holds what the validator returned. The
    other columns take their defaults. *)
Definition add_user (em : string) (now : timestamp) : M User.t :=
  io ;;;
  db <- read (fun db => db) ;;
  if negb (Str.contains_char "@" em) then
    raise (IntegrityError "CHECK constraint failed: valid_email_format")
  else if existsb (fun u => String.eqb (User.email u) em) (users db) then
    raise (IntegrityError "UNIQUE constraint failed: users.email")
  else
    let u := new_user db em now in
    modify (fun db => insert_user db u) ;;;
    ret u.

(** [Activity(name=..., description=..., schedule=..., max_participants=...)]:
    the validators run when the attributes are set. *)
Definition new_activity (data : string * string * string * Z)
  : result (string * string * string * Z) :=
  let '(nm, descr, sched, maxp) := data in
  match Activity.validate_name nm with
  | Raise e => Raise e
  | Ok nm' =>
      match Activity.validate_max_participants maxp with
      | Raise e => Raise e
      | Ok maxp' => Ok (nm', descr, sched, maxp')
      end
  end.

(** [session.add(activity)] *)
Definition add_activity (data : string * string * string * Z)
                        (now : timestamp) : M unit :=
  let '(nm, descr, sched, maxp) := data in
  db <- read (fun db => db) ;;
  if negb (maxp >? 0)%Z then
    raise (IntegrityError "CHECK constraint failed: positive_max_participants")
  else if negb (3 <=? String.length nm)%nat then
    raise (IntegrityError "CHECK constraint failed: min_name_length")
  else if negb (10 <=? String.length descr)%nat then
    raise (IntegrityError "CHECK constraint failed: min_description_length")
  else if existsb (fun a => String.eqb (Activity.name a) nm) (activities db) then
    raise (IntegrityError "UNIQUE constraint failed: activities.name")
  else
    let a := Activity.mk (next_id (map Activity.id (activities db)))
                         nm descr sched maxp now None in
    modify (fun db => insert_activity db a).

(** [activity.participants.append(user)] *)
Definition participants_append (a : Activity.t) (u : User.t)
                               (now : timestamp) : M unit :=
  db <- read (fun db => db) ;;
  if enrolled_in (activity_participants db) (Activity.id a) (User.id u) then
    raise (IntegrityError "UNIQUE constraint failed: activity_participants.activity_id, activity_participants.user_id")
  else
    modify (fun db =>
              insert_enrollment db (mkEnrollment (Activity.id a) (User.id u) now)).

(** [activity.participants.remove(user)] *)
Definition participants_remove (a : Activity.t) (u : User.t) : M unit :=
  modify (fun db => delete_enrollment db (Activity.id a) (User.id u)).

(** [select(Activity).options(selectinload(Activity.participants))
     .where(Activity.name == activity_name)] then [scalar_one_or_none()] *)
Definition select_activity_loaded (activity_name : string) (db : Store)
  : option LoadedActivity :=
  option_map (fun a => mkLoaded a (participants_of db a))
             (find_activity activity_name db).

(** [select(User).join(activity_participants).join(Activity)
     .where(User.id == user.id, Activity.id == activity.id)] *)
Definition select_enrollment (u : User.t) (a : Activity.t) (db : Store)
  : option User.t :=
  find (fun u' =>
          Nat.eqb (User.id u') (User.id u)
          && existsb (fun e =>
                        Nat.eqb (user_id e) (User.id u')
                        && existsb (fun a' =>
                                      Nat.eqb (Activity.id a') (activity_id e)
                                      && Nat.eqb (Activity.id a') (Activity.id a))
                                   (activities db))
                     (activity_participants db))
       (users db).

(* ------------------------------------------------------------------ *)
(** ** [src/app.py]: the request handlers *)

(** The value of one entry of the dictionary [get_activities] returns. *)
Record ActivityInfo : Type := mkInfo {
  info_description : string;
  info_schedule : string;
  info_max_participants : Z;
  info_participants : list string;
  info_available_spots : Z;
  info_is_full : bool
}.

(** [d[k] = v] on a dictionary kept as an association list in insertion
    order. *)
Fixpoint dict_set {V} (d : list (string * V)) (k : string) (v : V)
  : list (string * V) :=
  match d with
  | [] => [(k, v)]
  | (k', v') :: rest =>
      if String.eqb k' k then (k, v) :: rest else (k', v') :: dict_set rest k v
  end.

Fixpoint dict_get {V} (d : list (string * V)) (k : string) : option V :=
  match d with
  | [] => None
  | (k', v) :: rest => if String.eqb k' k then Some v else dict_get rest k
  end.

Definition activity_info (db : Store) (a : Activity.t) : ActivityInfo :=
  let ps := participants_of db a in
  mkInfo (Activity.description a) (Activity.schedule a)
         (Activity.max_participants a) (map User.email ps)
         (Activity.available_spots a ps) (Activity.is_full a ps).

Definition get_activities : M (list (string * ActivityInfo)) :=
  try_except
    (execute (fun db =>
                fold_left (fun d a => dict_set d (Activity.name a) (activity_info db a))
                          (activities db) []))
    (fun e =>
       match e with
       | IntegrityError _ | SQLAlchemyError _ =>
           Some (raise (HTTPException 500 "Error retrieving activities from database"))
       | _ => None
       end).

Definition signup_for_activity (activity_name email : string)
                               (now : timestamp) : M string :=
  try_except
    (activity <- execute (select_activity_loaded activity_name) ;;
     match activity with
     | None => raise (HTTPException 404 "Activity not found")
     | Some activity =>
         if Activity.is_full (row activity) (participants activity) then
           raise (HTTPException 400 "Activity is full")
         else
           found <- execute (find_user email) ;;
           user <- match found with
                   | Some u => ret u
                   | None =>
                       em <- lift (User.validate_email email) ;;
                       add_user em now
                   end ;;
           if user_in user (participants activity) then
             raise (HTTPException 400 "Student is already signed up")
           else
             participants_append (row activity) user now ;;;
             commit ;;;
             ret ("Signed up " ++ email ++ " for " ++ activity_name)
     end)
    (fun e =>
       match e with
       | HTTPException _ _ => Some (raise e)
       | IntegrityError _ =>
           Some (rollback ;;;
                 raise (HTTPException 400
                          "Data integrity error - possibly invalid email format"))
       | SQLAlchemyError _ =>
           Some (rollback ;;;
                 raise (HTTPException 500 "Error processing signup request"))
       | ValueError _ => None
       end).

Definition unregister_from_activity (activity_name email : string) : M string :=
  try_except
    (activity <- execute (select_activity_loaded activity_name) ;;
     match activity with
     | None => raise (HTTPException 404 "Activity not found")
     | Some activity =>
         found <- execute (find_user email) ;;
         match found with
         | None =>
             raise (HTTPException 400 "Student is not signed up for this activity")
         | Some user =>
             if negb (user_in user (participants activity)) then
               raise (HTTPException 400 "Student is not signed up for this activity")
             else
               participants_remove (row activity) user ;;;
               commit ;;;
               ret ("Unregistered " ++ email ++ " from " ++ activity_name)
         end
     end)
    (fun e =>
       match e with
       | HTTPException _ _ => Some (raise e)
       | IntegrityError _ | SQLAlchemyError _ =>
           Some (rollback ;;;
                 raise (HTTPException 500 "Error processing unregister request"))
       | ValueError _ => None
       end).

(** The two endpoints as a caller reaches them, inside [get_db]. *)
Definition signup (activity_name email : string) (now : timestamp) : M string :=
  get_db (signup_for_activity activity_name email now).

Definition unregister (activity_name email : string) : M string :=
  get_db (unregister_from_activity activity_name email).

(* ------------------------------------------------------------------ *)
(** ** [src/database.py]: seeding *)

Definition initial_activities : list (string * string * string * Z) :=
  [ ("Chess Club",
     "Learn strategies and compete in chess tournaments",
     "Fridays, 3:30 PM - 5:00 PM", 12%Z);
    ("Programming Class",
     "Learn programming fundamentals and build software projects",
     "Tuesdays and Thursdays, 3:30 PM - 4:30 PM", 20%Z);
    ("Gym Class",
     "Physical education and sports activities",
     "Mondays, Wednesdays, Fridays, 2:00 PM - 3:00 PM", 30%Z);
    ("Soccer Team",
     "Join the school soccer team and compete in matches",
     "Tuesdays and Thursdays, 4:00 PM - 5:30 PM", 22%Z);
    ("Basketball Team",
     "Practice and play basketball with the school team",
     "Wednesdays and Fridays, 3:30 PM - 5:00 PM", 15%Z);
    ("Art Club",
     "Explore your creativity through painting and drawing",
     "Thursdays, 3:30 PM - 5:00 PM", 15%Z);
    ("Drama Club",
     "Act, direct, and produce plays and performances",
     "Mondays and Wednesdays, 4:00 PM - 5:30 PM", 20%Z);
    ("Math Club",
     "Solve challenging problems and participate in math competitions",
     "Tuesdays, 3:30 PM - 4:30 PM", 10%Z);
    ("Debate Team",
     "Develop public speaking and argumentation skills",
     "Fridays, 4:00 PM - 5:30 PM", 12%Z) ].

Definition initial_users_data : list (string * string) :=
  [ ("michael@mergington.edu", "Chess Club");
    ("daniel@mergington.edu", "Chess Club");
    ("emma@mergington.edu", "Programming Class");
    ("sophia@mergington.edu", "Programming Class");
    ("john@mergington.edu", "Gym Class");
    ("olivia@mergington.edu", "Gym Class");
    ("liam@mergington.edu", "Soccer Team");
    ("noah@mergington.edu", "Soccer Team");
    ("ava@mergington.edu", "Basketball Team");
    ("mia@mergington.edu", "Basketball Team");
    ("amelia@mergington.edu", "Art Club");
    ("harper@mergington.edu", "Art Club");
    ("ella@mergington.edu", "Drama Club");
    ("scarlett@mergington.edu", "Drama Club");
    ("james@mergington.edu", "Math Club");
    ("benjamin@mergington.edu", "Math Club");
    ("charlotte@mergington.edu", "Debate Team");
    ("henry@mergington.edu", "Debate Team") ].

(** The body of the first loop: [Activity( **activity_data )] and
    [session.add(activity)]. *)
Definition seed_activity (now : timestamp)
                         (activity_data : string * string * string * Z) : M unit :=
  a <- lift (new_activity activity_data) ;;
  add_activity a now.

(** The body of the second loop. *)
Definition seed_enrollment (now : timestamp) (pair : string * string) : M unit :=
  let '(email, activity_name) := pair in
  found <- execute (find_user email) ;;
  user <- match found with
          | Some u => ret u
          | None =>
              em <- lift (User.validate_email email) ;;
              add_user em now
          end ;;
  activity <- execute (find_activity activity_name) ;;
  match activity with
  | Some activity =>
      existing_enrollment <- execute (select_enrollment user activity) ;;
      match existing_enrollment with
      | None => participants_append activity user now
      | Some _ => ret tt
      end
  | None => ret tt
  end.

Definition seed_initial_data (now : timestamp) : M unit :=
  with_session
    (existing_activities <- execute activities ;;
     match existing_activities with
     | _ :: _ => ret tt
     | [] =>
         for_each initial_activities (seed_activity now) ;;;
         commit ;;;
         for_each initial_users_data (seed_enrollment now) ;;;
         commit
     end).

(* ------------------------------------------------------------------ *)
(** ** [migrate.py]: reset *)

(** [Base.metadata.drop_all] and [create_all] inside [engine.begin()]. *)
Definition recreate_tables : M unit :=
  io ;;;
  fun s => (Ok tt, mkSession empty_store empty_store (budget s) (commits s)).

(** [confirmation] is what [input] returned and [backup] what
    [create_backup()] does in this run: it returns a path or [None], or
    raises. *)
Definition reset_database (confirmation : string)
                          (backup : result (option string))
                          (now : timestamp) : M bool :=
  if negb (String.eqb confirmation "RESET") then ret false
  else
    try_except
      (backup_path <- lift backup ;;
       recreate_tables ;;;
       seed_initial_data now ;;;
       ret true)
      (fun _ => Some (ret false)).

(* ------------------------------------------------------------------ *)
(** ** States of the store *)

(** The store after bootstrap on an empty store, with a working storage. *)
Definition seeded (now : timestamp) : Store :=
  committed (snd (seed_initial_data now (idle None empty_store))).

(** The stores that sequential [signup] and [unregister] requests reach
    from a seeded store, whatever the storage does to each request. *)
Inductive reachable : Store -> Prop :=
| reach_seeded : forall now, reachable (seeded now)
| reach_signup : forall db activity_name email now faults,
    reachable db ->
    reachable (committed (snd (signup activity_name email now (idle faults db))))
| reach_unregister : forall db activity_name email faults,
    reachable db ->
    reachable (committed (snd (unregister activity_name email (idle faults db)))).

Definition participant_count (db : Store) (a : Activity.t) : Z :=
  Z.of_nat (List.length (participants_of db a)).

(** What the tables guarantee together with the request handlers. *)
Record store_ok (db : Store) : Prop := mkOk {
  ok_user_ids : NoDup (map User.id (users db));
  ok_activity_ids : NoDup (map Activity.id (activities db));
  ok_refs : forall e, In e (activity_participants db) ->
                      In (user_id e) (map User.id (users db));
  ok_emails : forall u, In u (users db) ->
                        User.validate_email (User.email u) = Ok (User.email u);
  ok_capacity : forall a, In a (activities db) ->
                          (participant_count db a <= Activity.max_participants a)%Z
}.

(** The store after [u] joined [a]. *)
Definition enroll (db : Store) (a : Activity.t) (u : User.t)
                  (now : timestamp) : Store :=
  insert_enrollment db (mkEnrollment (Activity.id a) (User.id u) now).

(** The outcome of a request and the store it leaves. *)
Definition outcome {A} (r : result A * Session) : result A * Store :=
  (fst r, committed (snd r)).

(** The rows of the nine canonical activities as the first loop of the
    seed inserts them into an empty table. *)
Definition initial_rows (now : timestamp) : list Activity.t :=
  map (fun '(i, (nm, descr, sched, maxp)) =>
         Activity.mk i nm descr sched maxp now None)
      (combine (seq 1 (List.length initial_activities)) initial_activities).

(** The store after the first commit of the seed. *)
Definition activities_only (now : timestamp) (db : Store) : Store :=
  mkStore (initial_rows now) (users db) (activity_participants db).

(** The messages and the error of the handlers. *)
Definition signed_up_message (activity_name email : string) : string :=
  "Signed up " ++ email ++ " for " ++ activity_name.

Definition integrity_response : exn :=
  HTTPException 400 "Data integrity error - possibly invalid email format".

Definition unregistered_message (activity_name email : string) : string :=
  "Unregistered " ++ email ++ " from " ++ activity_name.

(** The Chess Club row of a store seeded at [now]. *)
Definition chess_club (now : timestamp) : Activity.t :=
  Activity.mk 1 "Chess Club"
              "Learn strategies and compete in chess tournaments"
              "Fridays, 3:30 PM - 5:00 PM" 12 now None.

(** What the second loop never touches: the committed store, the commit
    counter and the activities of the working copy. *)
Definition phase2_frame (c : Store) (n : nat) (acts : list Activity.t)
                        (s : Session) : Prop :=
  committed s = c /\ commits s = n /\ activities (working s) = acts.

(** [emails] signed up for one activity, one request after the other,
    with a working storage; and the seeded store with the Math Club
    filled to its ten places. *)
Definition signup_all (activity_name : string) (emails : list string)
                      (now : timestamp) (db : Store) : Store :=
  fold_left (fun d e => committed (snd (signup activity_name e now (idle None d))))
            emails db.

Definition math_club_full : Store :=
  signup_all "Math Club"
    ["s1@mergington.edu"; "s2@mergington.edu"; "s3@mergington.edu";
     "s4@mergington.edu"; "s5@mergington.edu"; "s6@mergington.edu";
     "s7@mergington.edu"; "s8@mergington.edu"] 1 (seeded 0).

(* ------------------------------------------------------------------ *)
(** ** The language of a regular expression *)

(** [matches r s]: the string [s] is in the language of [r]. The
    matcher of [Re] is compared with it below. *)
Inductive matches : Re.regex -> string -> Prop :=
| matches_eps : matches Re.Eps ""
| matches_chr : forall c, matches (Re.Chr c) (String c "")
| matches_notchr : forall x c, c <> x -> matches (Re.NotChr x) (String c "")
| matches_cat : forall a b s t,
    matches a s -> matches b t -> matches (Re.Cat a b) (s ++ t)
| matches_alt_l : forall a b s, matches a s -> matches (Re.Alt a b) s
| matches_alt_r : forall a b s, matches b s -> matches (Re.Alt a b) s
| matches_star_nil : forall a, matches (Re.Star a) ""
| matches_star_cons : forall a s t,
    matches a s -> matches (Re.Star a) t -> matches (Re.Star a) (s ++ t).

(** A non-empty string without the character [@]. *)
Definition email_part (s : string) : Prop :=
  s <> "" /\ Str.contains_char "@" s = false.


(** [GET /activities] as a caller reaches it, inside [get_db]. *)
Definition list_activities : M (list (string * ActivityInfo)) :=
  get_db get_activities.

(** The key of a row of the association table. *)
Definition pair_of (e : Enrollment) : nat * nat := (activity_id e, user_id e).

(** The changes a request can commit: an existing user joins an activity
    with a free place, a user is created and joins, a user leaves. *)
Inductive step (db : Store) : Store -> Prop :=
| step_enroll : forall a u now,
    In a (activities db) -> In u (users db) ->
    Activity.is_full a (participants_of db a) = false ->
    enrolled_in (activity_participants db) (Activity.id a) (User.id u) = false ->
    step db (enroll db a u now)
| step_join : forall a address em now,
    In a (activities db) ->
    User.validate_email address = Ok em ->
    existsb (fun v => String.eqb (User.email v) em) (users db) = false ->
    Activity.is_full a (participants_of db a) = false ->
    step db (enroll (insert_user db (new_user db em now)) a
                    (new_user db em now) now)
| step_leave : forall a u,
    In a (activities db) -> In u (users db) ->
    step db (delete_enrollment db (Activity.id a) (User.id u)).

(** What holds of the three tables beyond [store_ok]. *)
Record store_wf (db : Store) : Prop := mkWf {
  wf_activities : exists now, activities db = initial_rows now;
  wf_emails : NoDup (map User.email (users db));
  wf_defaults : forall u, In u (users db) ->
                  User.name u = None /\ User.grade u = None /\
                  User.student_id u = None /\ User.role u = "student";
  wf_pairs : NoDup (map pair_of (activity_participants db));
  wf_activity_refs : forall e, In e (activity_participants db) ->
                       In (activity_id e) (map Activity.id (activities db))
}.

(* ------------------------------------------------------------------ *)
(** ** [src/app.py]: health and startup; [src/database.py]: [init_database] *)

(** [GET /health]: one query; any exception becomes status 503. *)
Definition health_check : M (list (string * string)) :=
  try_except
    (execute (fun db => hd_error (activities db)) ;;;
     ret [("status", "healthy"); ("database", "connected")])
    (fun _ => Some (raise (HTTPException 503 "Database connection failed"))).

(** The endpoint as a caller reaches it, inside [get_db]. *)
Definition health : M (list (string * string)) := get_db health_check.

(** [Base.metadata.create_all] inside [engine.begin()]: one operation
    against the storage; tables that exist are kept as they are. An
    exception is logged and raised again. *)
Definition init_database : M unit :=
  try_except io (fun e => Some (raise e)).

(** [startup_event]: whatever is raised is logged and dropped. *)
Definition startup_event (now : timestamp) : M unit :=
  try_except
    (init_database ;;;
     seed_initial_data now)
    (fun _ => Some (ret tt)).

(* ------------------------------------------------------------------ *)
(** ** [migrate.py]: migration, health report and the command line *)




(** What [check_database_health] prints for one activity: its name, the
    number of participants, the maximum and the status. *)
Inductive FillStatus : Type :=
| FULL : FillStatus
| SpotsLeft : Z -> FillStatus.

Record ActivityLine : Type := mkLine {
  line_name : string;
  line_participants : nat;
  line_max_participants : Z;
  line_status : FillStatus
}.

(** The report: the three counts and the line of each activity. *)
Record HealthReport : Type := mkReport {
  report_activities : nat;
  report_users : nat;
  report_total_enrollments : nat;
  report_details : list ActivityLine
}.

Definition activity_line (a : LoadedActivity) : ActivityLine :=
  let spots_left :=
    (Activity.max_participants (row a)
     - Z.of_nat (List.length (participants a)))%Z in
  mkLine (Activity.name (row a)) (List.length (participants a))
         (Activity.max_participants (row a))
         (if (spots_left =? 0)%Z then FULL else SpotsLeft spots_left).

Definition health_report (acts : list LoadedActivity) (us : list User.t)
  : HealthReport :=
  mkReport (List.length acts) (List.length us)
           (list_sum (map (fun a => List.length (participants a)) acts))
           (map activity_line acts).

(** [select(Activity).options(selectinload(Activity.participants))] *)
Definition select_activities_loaded (db : Store) : list LoadedActivity :=
  map (fun a => mkLoaded a (participants_of db a)) (activities db).

(** [check_database_health]: the value returned, with the report printed
    on the way when there is one. *)
Definition check_database_health : M (bool * option HealthReport) :=
  try_except
    (with_session
       (acts <- execute select_activities_loaded ;;
        us <- execute users ;;
        ret (true, Some (health_report acts us))))
    (fun _ => Some (ret (false, None))).


(* ------------------------------------------------------------------ *)
(** * Properties *)

(** ** Characters and strings *)

Module StrFacts.
Import Str.

Lemma nat_of_lower_char c :
  is_upper c = true -> nat_of_ascii (lower_char c) = nat_of_ascii c + 32.
Proof.
  intros H. unfold lower_char. rewrite H.
  apply nat_ascii_embedding.
  unfold is_upper in H. apply andb_true_iff in H as [_ H].
  apply Nat.leb_le in H. lia.
Qed.

(** A character that is no letter is hit by [lower_char] exactly where it
    is hit already. *)
Lemma eqb_lower_char c x :
  is_upper x = false -> is_lower x = false ->
  Ascii.eqb (lower_char c) x = Ascii.eqb c x.
Proof.
  intros Hu Hl. destruct (is_upper c) eqn:Hc.
  - assert (Hn := nat_of_lower_char c Hc).
    assert (lower_char c <> x).
    { intros E. subst x. unfold is_upper, is_lower in *.
      rewrite Hn in Hl.
      apply andb_true_iff in Hc as [H1 H2].
      apply Nat.leb_le in H1. apply Nat.leb_le in H2.
      apply andb_false_iff in Hl as [Hl|Hl]; apply Nat.leb_gt in Hl; lia. }
    assert (c <> x) by (intros ->; congruence).
    apply Ascii.eqb_neq in H. apply Ascii.eqb_neq in H0. congruence.
  - unfold lower_char. now rewrite Hc.
Qed.

Lemma lower_char_idem c : lower_char (lower_char c) = lower_char c.
Proof.
  destruct (is_upper c) eqn:Hc.
  - assert (Hn := nat_of_lower_char c Hc).
    unfold lower_char at 1.
    replace (is_upper (lower_char c)) with false; [reflexivity|].
    symmetry. unfold is_upper in *. rewrite Hn.
    apply andb_true_iff in Hc as [H1 H2].
    apply Nat.leb_le in H1. apply Nat.leb_le in H2.
    apply andb_false_iff. right. apply Nat.leb_gt. lia.
  - unfold lower_char. now rewrite !Hc.
Qed.

Lemma lower_idem s : lower (lower s) = lower s.
Proof.
  induction s as [|c s IH]; simpl; [reflexivity|].
  now rewrite lower_char_idem, IH.
Qed.

Lemma contains_char_lower x s :
  is_upper x = false -> is_lower x = false ->
  contains_char x (lower s) = contains_char x s.
Proof.
  intros Hu Hl. induction s as [|c s IH]; simpl; [reflexivity|].
  now rewrite eqb_lower_char, IH.
Qed.

Lemma last_char_lower s :
  last_char (lower s) = option_map lower_char (last_char s).
Proof.
  induction s as [|c s IH]; simpl; [reflexivity|].
  destruct s as [|d s]; [reflexivity|]. exact IH.
Qed.

Lemma drop_last_lower s : drop_last (lower s) = lower (drop_last s).
Proof.
  induction s as [|c s IH]; simpl; [reflexivity|].
  destruct s as [|d s]; [reflexivity|].
  simpl in *. now rewrite IH.
Qed.

Lemma contains_char_drop_last x s :
  contains_char x s = false -> contains_char x (drop_last s) = false.
Proof.
  induction s as [|c s IH]; simpl; [reflexivity|].
  intros H. apply orb_false_iff in H as [H1 H2].
  destruct s as [|d s]; [reflexivity|].
  simpl. rewrite H1. simpl. now apply IH.
Qed.

End StrFacts.

(** ** Regular expressions *)

Module ReFacts.
Import Re.

Lemma needs_not_nullable x r : needs x r = true -> nullable r = false.
Proof.
  induction r; simpl; intros H; try congruence.
  - apply orb_true_iff in H as [H|H].
    + now rewrite IHr1.
    + rewrite IHr2 by assumption. apply andb_false_r.
  - apply andb_true_iff in H as [H1 H2]. now rewrite IHr1, IHr2.
Qed.

Lemma needs_deriv x c r :
  Ascii.eqb c x = false -> needs x r = true -> needs x (deriv c r) = true.
Proof.
  intros Hc. induction r; simpl; intros H; try congruence.
  - apply Ascii.eqb_eq in H. subst a. now rewrite Hc.
  - destruct (nullable r1) eqn:N.
    + assert (needs x r1 = false) as H1.
      { destruct (needs x r1) eqn:E; [|reflexivity].
        apply needs_not_nullable in E. congruence. }
      rewrite H1 in H. simpl in H. simpl.
      rewrite H, (IHr2 H). now rewrite orb_true_r.
    + simpl. apply orb_true_iff in H as [H|H].
      * now rewrite IHr1.
      * rewrite H. apply orb_true_r.
  - apply andb_true_iff in H as [H1 H2]. now rewrite IHr1, IHr2.
Qed.

Lemma needs_fullmatch x s : forall r,
  needs x r = true -> Str.contains_char x s = false -> fullmatch r s = false.
Proof.
  unfold fullmatch. induction s as [|c s IH]; simpl; intros r Hr Hs.
  - eapply needs_not_nullable; eassumption.
  - apply orb_false_iff in Hs as [Hc Hs].
    apply IH; [|assumption]. now apply needs_deriv.
Qed.

(** A pattern that needs [x] matches only strings that contain [x]. *)
Lemma needs_match_anchored x r s :
  needs x r = true -> match_anchored r s = true ->
  Str.contains_char x s = true.
Proof.
  intros Hr Hm. destruct (Str.contains_char x s) eqn:Hs; [reflexivity|].
  unfold match_anchored in Hm.
  rewrite (needs_fullmatch x s r Hr Hs) in Hm. simpl in Hm.
  destruct (Str.last_char s); [|discriminate].
  rewrite (needs_fullmatch x (Str.drop_last s) r Hr) in Hm.
  - now rewrite andb_false_r in Hm.
  - now apply StrFacts.contains_char_drop_last.
Qed.

Lemma caseless_deriv c r : caseless r = true -> caseless (deriv c r) = true.
Proof.
  induction r; simpl; intros H; try reflexivity.
  - now destruct (Ascii.eqb c a).
  - now destruct (Ascii.eqb c a).
  - apply andb_true_iff in H as [H1 H2].
    destruct (nullable r1); simpl; rewrite ?IHr1, ?IHr2, ?H2; auto.
  - apply andb_true_iff in H as [H1 H2]. now rewrite IHr1, IHr2.
  - now rewrite IHr.
Qed.

Lemma deriv_lower_char c r :
  caseless r = true -> deriv (Str.lower_char c) r = deriv c r.
Proof.
  induction r; simpl; intros H; try reflexivity.
  - apply andb_true_iff in H as [H1 H2].
    apply negb_true_iff in H1. apply negb_true_iff in H2.
    now rewrite StrFacts.eqb_lower_char.
  - apply andb_true_iff in H as [H1 H2].
    apply negb_true_iff in H1. apply negb_true_iff in H2.
    now rewrite StrFacts.eqb_lower_char.
  - apply andb_true_iff in H as [H1 H2]. now rewrite IHr1, IHr2.
  - apply andb_true_iff in H as [H1 H2]. now rewrite IHr1, IHr2.
  - now rewrite IHr.
Qed.

Lemma fullmatch_lower s : forall r,
  caseless r = true -> fullmatch r (Str.lower s) = fullmatch r s.
Proof.
  unfold fullmatch. induction s as [|c s IH]; simpl; intros r H; [reflexivity|].
  rewrite deriv_lower_char by assumption.
  apply IH. now apply caseless_deriv.
Qed.

(** Lower-casing a string does not change whether a caseless pattern
    matches it. *)
Lemma match_anchored_lower r s :
  caseless r = true -> match_anchored r (Str.lower s) = match_anchored r s.
Proof.
  intros H. unfold match_anchored.
  rewrite fullmatch_lower, StrFacts.last_char_lower, StrFacts.drop_last_lower
    by assumption.
  destruct (Str.last_char s) as [c|]; simpl; [|reflexivity].
  rewrite fullmatch_lower by assumption.
  now rewrite StrFacts.eqb_lower_char.
Qed.

End ReFacts.

(** ** The e-mail validator *)

Lemma validate_email_cases address :
  (Re.match_anchored User.email_pattern address = true /\
   User.validate_email address = Ok (Str.lower address)) \/
  (Re.match_anchored User.email_pattern address = false /\
   User.validate_email address = Raise (ValueError "Invalid email format")).
Proof.
  unfold User.validate_email.
  destruct (Re.match_anchored User.email_pattern address); simpl; auto.
Qed.

(** What the validator returns passes the validator unchanged. *)
Lemma validate_email_normal address em :
  User.validate_email address = Ok em -> User.validate_email em = Ok em.
Proof.
  destruct (validate_email_cases address) as [[Hm ->]|[_ ->]]; [|discriminate].
  intros [= <-]. unfold User.validate_email.
  rewrite ReFacts.match_anchored_lower by reflexivity.
  rewrite Hm. simpl. now rewrite StrFacts.lower_idem.
Qed.

(** The validator decides by the lower-cased address. *)
Lemma validate_email_lower address :
  User.validate_email (Str.lower address) = User.validate_email address.
Proof.
  unfold User.validate_email.
  rewrite ReFacts.match_anchored_lower by reflexivity.
  now rewrite StrFacts.lower_idem.
Qed.

(** A validated address satisfies the table's [LIKE '%@%'] check. *)
Lemma validate_email_has_at address em :
  User.validate_email address = Ok em -> Str.contains_char "@" em = true.
Proof.
  destruct (validate_email_cases address) as [[Hm ->]|[_ ->]]; [|discriminate].
  intros [= <-].
  rewrite StrFacts.contains_char_lower by reflexivity.
  eapply ReFacts.needs_match_anchored; [|exact Hm]. reflexivity.
Qed.

(** ** Running the handlers *)

Ltac case_step :=
  match goal with
  | |- context [match ?x with _ => _ end] =>
      match x with
      | context [match _ with _ => _ end] => fail 1
      | _ => destruct x eqn:?
      end
  | |- context [if ?x then _ else _] =>
      match x with
      | context [if _ then _ else _] => fail 1
      | _ => destruct x eqn:?
      end
  end.

Ltac unfold_session :=
  cbv [signup unregister get_db signup_for_activity unregister_from_activity
       with_session finally try_except bind execute io read ret raise lift
       rollback commit discard idle add_user participants_append
       participants_remove modify select_activity_loaded option_map outcome
       committed working budget commits fst snd row participants].

Ltac run_session :=
  unfold_session; unfold User.validate_email;
  repeat (case_step;
          cbn [committed working budget commits fst snd row participants
               activities users activity_participants insert_user
               insert_enrollment delete_enrollment] in *);
  try discriminate.

(** The handler with a working storage, branch by branch. *)
Lemma signup_run activity_name email now db :
  signup activity_name email now (idle None db) =
  match find_activity activity_name db with
  | None => (Raise (HTTPException 404 "Activity not found"), idle None db)
  | Some a =>
      let ps := participants_of db a in
      if Activity.is_full a ps then
        (Raise (HTTPException 400 "Activity is full"), idle None db)
      else
        match find_user email db with
        | Some u =>
            if user_in u ps then
              (Raise (HTTPException 400 "Student is already signed up"),
               idle None db)
            else if enrolled_in (activity_participants db)
                                (Activity.id a) (User.id u) then
              (Raise integrity_response, idle None db)
            else
              (Ok (signed_up_message activity_name email),
               mkSession (enroll db a u now) (enroll db a u now) None 1)
        | None =>
            if negb (Re.match_anchored User.email_pattern email) then
              (Raise (ValueError "Invalid email format"), idle None db)
            else
                let em := Str.lower email in
                let u := new_user db em now in
                let db1 := insert_user db u in
                if negb (Str.contains_char "@" em) then
                  (Raise integrity_response, idle None db)
                else if existsb (fun v => String.eqb (User.email v) em)
                                (users db) then
                  (Raise integrity_response, idle None db)
                else if user_in u ps then
                  (Raise (HTTPException 400 "Student is already signed up"),
                   idle None db)
                else if enrolled_in (activity_participants db)
                                    (Activity.id a) (User.id u) then
                  (Raise integrity_response, idle None db)
                else
                  (Ok (signed_up_message activity_name email),
                   mkSession (enroll db1 a u now) (enroll db1 a u now) None 1)
        end
  end.
Proof.
  unfold integrity_response, signed_up_message.
  run_session; solve [reflexivity | congruence].
Qed.

(** Whatever the storage does, a signup either fails and leaves the
    store as it was, without a commit, or ends as the run with a working
    storage does, with one commit. *)
Lemma signup_faulty faults activity_name email now db :
  let r := signup activity_name email now (idle faults db) in
  let r0 := signup activity_name email now (idle None db) in
  working (snd r) = committed (snd r) /\
  ((exists x, fst r = Raise x /\ committed (snd r) = db /\ commits (snd r) = 0)
   \/
   (exists msg, fst r = Ok msg /\ fst r0 = Ok msg /\
                committed (snd r) = committed (snd r0) /\ commits (snd r) = 1)).
Proof.
  destruct faults as [[|[|[|[|k]]]]|]; run_session;
    (split; [reflexivity|]);
    solve [ left; eexists; repeat split; reflexivity
          | right; eexists; repeat split; reflexivity ].
Qed.

Lemma unregister_run activity_name email db :
  unregister activity_name email (idle None db) =
  match find_activity activity_name db with
  | None => (Raise (HTTPException 404 "Activity not found"), idle None db)
  | Some a =>
      match find_user email db with
      | None =>
          (Raise (HTTPException 400 "Student is not signed up for this activity"),
           idle None db)
      | Some u =>
          if negb (user_in u (participants_of db a)) then
            (Raise (HTTPException 400 "Student is not signed up for this activity"),
             idle None db)
          else
            let db1 := delete_enrollment db (Activity.id a) (User.id u) in
            (Ok (unregistered_message activity_name email),
             mkSession db1 db1 None 1)
      end
  end.
Proof.
  unfold unregistered_message.
  run_session; solve [reflexivity | congruence].
Qed.

Lemma unregister_faulty faults activity_name email db :
  let r := unregister activity_name email (idle faults db) in
  let r0 := unregister activity_name email (idle None db) in
  working (snd r) = committed (snd r) /\
  ((exists x, fst r = Raise x /\ committed (snd r) = db /\ commits (snd r) = 0)
   \/
   (exists msg, fst r = Ok msg /\ fst r0 = Ok msg /\
                committed (snd r) = committed (snd r0) /\ commits (snd r) = 1)).
Proof.
  destruct faults as [[|[|[|k]]]|]; run_session;
    (split; [reflexivity|]);
    solve [ left; eexists; repeat split; reflexivity
          | right; eexists; repeat split; reflexivity ].
Qed.

(** ** Tables and the participants join *)

Lemma is_pair_true aid uid e :
  is_pair aid uid e = true <-> activity_id e = aid /\ user_id e = uid.
Proof.
  unfold is_pair. rewrite andb_true_iff, !Nat.eqb_eq. tauto.
Qed.

Lemma enrolled_in_app rows1 rows2 aid uid :
  enrolled_in (rows1 ++ rows2) aid uid =
  enrolled_in rows1 aid uid || enrolled_in rows2 aid uid.
Proof. unfold enrolled_in. apply existsb_app. Qed.

Lemma enrolled_in_In rows aid uid :
  enrolled_in rows aid uid = true ->
  exists e, In e rows /\ activity_id e = aid /\ user_id e = uid.
Proof.
  unfold enrolled_in. intros H. apply existsb_exists in H as (e & He & Hp).
  apply is_pair_true in Hp. eauto.
Qed.

(** Deleting a pair that is not in the table changes nothing. *)
Lemma filter_not_pair_id rows aid uid :
  enrolled_in rows aid uid = false ->
  filter (fun e => negb (is_pair aid uid e)) rows = rows.
Proof.
  unfold enrolled_in. induction rows as [|e rows IH]; simpl; [reflexivity|].
  intros H. apply orb_false_iff in H as [H1 H2].
  rewrite H1. simpl. now rewrite IH.
Qed.

Lemma enrolled_in_delete rows aid uid aid' uid' :
  enrolled_in (filter (fun e => negb (is_pair aid uid e)) rows) aid' uid' =
  enrolled_in rows aid' uid' && negb (Nat.eqb aid' aid && Nat.eqb uid' uid).
Proof.
  apply eq_iff_eq_true. unfold enrolled_in.
  rewrite andb_true_iff, negb_true_iff, andb_false_iff, !existsb_exists.
  rewrite !Nat.eqb_neq. split.
  - intros (e & He & Hp). apply filter_In in He as [He Hn].
    split; [eauto|]. apply negb_true_iff in Hn.
    apply is_pair_true in Hp as [<- <-].
    unfold is_pair in Hn. apply andb_false_iff in Hn.
    now rewrite !Nat.eqb_neq in Hn.
  - intros [(e & He & Hp) Hn]. exists e. split; [|assumption].
    apply filter_In. split; [assumption|]. apply negb_true_iff.
    apply is_pair_true in Hp as [<- <-].
    unfold is_pair. apply andb_false_iff. now rewrite !Nat.eqb_neq.
Qed.

Lemma next_id_fresh ids : ~ In (next_id ids) ids.
Proof.
  unfold next_id. intros H.
  assert (Hle : forall n, In n ids -> n <= list_max ids).
  { intros n Hn. pose proof (proj1 (list_max_le ids (list_max ids)) (le_n _)) as F.
    rewrite Forall_forall in F. now apply F. }
  apply Hle in H. lia.
Qed.

Lemma length_filter_le {A} (f : A -> bool) l :
  List.length (filter f l) <= List.length l.
Proof. induction l as [|x l IH]; simpl; [lia|]. destruct (f x); simpl; lia. Qed.

(** With distinct keys, letting one more key pass a filter adds at most
    one row. *)
Lemma length_filter_one_more {A} (key : A -> nat) (f : A -> bool) k l :
  NoDup (map key l) ->
  List.length (filter (fun x => f x || Nat.eqb (key x) k) l)
  <= S (List.length (filter f l)).
Proof.
  induction l as [|x l IH]; simpl; intros ND; [lia|].
  inversion ND as [|? ? Hnin ND']; subst.
  destruct (f x) eqn:Fx; simpl.
  - specialize (IH ND'). lia.
  - destruct (Nat.eqb_spec (key x) k) as [E|E]; simpl.
    + assert (filter (fun y => f y || Nat.eqb (key y) k) l = filter f l) as ->.
      { apply filter_ext_in. intros y Hy.
        destruct (Nat.eqb_spec (key y) k) as [E'|E']; [|apply orb_false_r].
        exfalso. apply Hnin. rewrite E, <- E'. now apply in_map. }
      lia.
    + now apply IH.
Qed.

Lemma find_app_none {A} (f : A -> bool) l1 l2 :
  find f l1 = None -> find f (l1 ++ l2) = find f l2.
Proof.
  induction l1 as [|x l1 IH]; simpl; [reflexivity|].
  destruct (f x); [discriminate|]. exact IH.
Qed.

Lemma find_app_some {A} (f : A -> bool) l1 l2 x :
  find f l1 = Some x -> find f (l1 ++ l2) = Some x.
Proof.
  induction l1 as [|y l1 IH]; simpl; [discriminate|].
  destruct (f y); [trivial|]. exact IH.
Qed.

(** ** The store invariant *)

Lemma NoDup_snoc {A} (l : list A) x : NoDup l -> ~ In x l -> NoDup (l ++ [x]).
Proof.
  induction l as [|y l IH]; simpl; intros ND Hx.
  - constructor; [intros []|constructor].
  - inversion ND as [|? ? Hy ND']; subst. constructor.
    + intros Hin. apply in_app_or in Hin as [Hin|[<-|[]]]; tauto.
    + apply IH; tauto.
Qed.

Lemma participants_insert_user db u a :
  (forall aid, enrolled_in (activity_participants db) aid (User.id u) = false) ->
  participants_of (insert_user db u) a = participants_of db a.
Proof.
  intros H. unfold participants_of, insert_user. simpl.
  rewrite filter_app. simpl. rewrite H. apply app_nil_r.
Qed.

Lemma new_user_not_enrolled db em now aid :
  store_ok db ->
  enrolled_in (activity_participants db) aid (User.id (new_user db em now)) = false.
Proof.
  intros OK. destruct (enrolled_in _ _ _) eqn:E; [|reflexivity].
  apply enrolled_in_In in E as (e & He & _ & Hu).
  apply (ok_refs OK) in He. rewrite Hu in He. simpl in He.
  now apply next_id_fresh in He.
Qed.

Lemma store_ok_insert_user db address em now :
  store_ok db -> User.validate_email address = Ok em ->
  store_ok (insert_user db (new_user db em now)).
Proof.
  intros OK Hv. constructor; simpl.
  - rewrite map_app. simpl.
    apply NoDup_snoc; [apply (ok_user_ids OK) | apply next_id_fresh].
  - apply (ok_activity_ids OK).
  - intros e He. rewrite map_app. apply in_or_app. left. now apply (ok_refs OK).
  - intros u Hu. apply in_app_or in Hu as [Hu|[<-|[]]].
    + now apply (ok_emails OK).
    + simpl. eapply validate_email_normal; eassumption.
  - intros a Ha. unfold participant_count.
    rewrite participants_insert_user.
    + now apply (ok_capacity OK).
    + intros aid. now apply new_user_not_enrolled.
Qed.

Lemma participants_enroll_other db a u now a' :
  Activity.id a' <> Activity.id a ->
  participants_of (enroll db a u now) a' = participants_of db a'.
Proof.
  intros Hne. unfold participants_of, enroll, insert_enrollment. simpl.
  apply filter_ext. intros v. rewrite enrolled_in_app. simpl.
  unfold is_pair. simpl.
  apply Nat.eqb_neq in Hne. rewrite Nat.eqb_sym, Hne. simpl.
  apply orb_false_r.
Qed.

Lemma participants_enroll_length db a u now :
  NoDup (map User.id (users db)) ->
  List.length (participants_of (enroll db a u now) a)
  <= S (List.length (participants_of db a)).
Proof.
  intros ND. unfold participants_of, enroll, insert_enrollment. simpl.
  etransitivity; [|apply (length_filter_one_more User.id _ (User.id u) _ ND)].
  apply Nat.eq_le_incl. f_equal. apply filter_ext. intros v.
  rewrite enrolled_in_app. simpl. unfold is_pair. simpl.
  rewrite Nat.eqb_refl. simpl. rewrite orb_false_r.
  now rewrite (Nat.eqb_sym (User.id u)).
Qed.

Lemma NoDup_map_inj {A} (key : A -> nat) l x y :
  NoDup (map key l) -> In x l -> In y l -> key x = key y -> x = y.
Proof.
  induction l as [|z l IH]; simpl; intros ND Hx Hy E; [contradiction|].
  inversion ND as [|? ? Hnin ND']; subst.
  destruct Hx as [->|Hx], Hy as [->|Hy]; auto.
  - exfalso. apply Hnin. rewrite E. now apply in_map.
  - exfalso. apply Hnin. rewrite <- E. now apply in_map.
Qed.

Lemma store_ok_enroll db a u now :
  store_ok db -> In a (activities db) -> In u (users db) ->
  Activity.is_full a (participants_of db a) = false ->
  store_ok (enroll db a u now).
Proof.
  intros OK Ha Hu Hfull. constructor; simpl.
  - apply (ok_user_ids OK).
  - apply (ok_activity_ids OK).
  - intros e He. apply in_app_or in He as [He|[<-|[]]].
    + now apply (ok_refs OK).
    + simpl. now apply in_map.
  - apply (ok_emails OK).
  - intros a' Ha'. unfold participant_count.
    destruct (Nat.eq_dec (Activity.id a') (Activity.id a)) as [E|E].
    + assert (a' = a) as ->
        by (apply (NoDup_map_inj Activity.id (activities db));
            auto using ok_activity_ids).
      pose proof (participants_enroll_length db a u now (ok_user_ids OK)).
      unfold Activity.is_full in Hfull. rewrite Z.geb_leb in Hfull.
      apply Z.leb_gt in Hfull. lia.
    + rewrite participants_enroll_other by assumption.
      now apply (ok_capacity OK).
Qed.

Lemma store_ok_delete db aid uid :
  store_ok db -> store_ok (delete_enrollment db aid uid).
Proof.
  intros OK. constructor; simpl.
  - apply (ok_user_ids OK).
  - apply (ok_activity_ids OK).
  - intros e He. apply filter_In in He as [He _]. now apply (ok_refs OK).
  - apply (ok_emails OK).
  - intros a Ha. unfold participant_count.
    pose proof (ok_capacity OK a Ha) as Hc. unfold participant_count in Hc.
    assert (List.length (participants_of (delete_enrollment db aid uid) a)
            <= List.length (participants_of db a)); [|lia].
    unfold participants_of, delete_enrollment. simpl.
    induction (users db) as [|v l IH]; simpl; [lia|].
    rewrite enrolled_in_delete.
    destruct (enrolled_in (activity_participants db) (Activity.id a) (User.id v));
      simpl; [|exact IH].
    destruct (negb _); simpl; lia.
Qed.

Lemma find_activity_some nm db a :
  find_activity nm db = Some a -> In a (activities db) /\ Activity.name a = nm.
Proof.
  unfold find_activity. intros H. apply find_some in H as [H1 H2].
  now apply String.eqb_eq in H2.
Qed.

Lemma find_user_some em db u :
  find_user em db = Some u -> In u (users db) /\ User.email u = em.
Proof.
  unfold find_user. intros H. apply find_some in H as [H1 H2].
  now apply String.eqb_eq in H2.
Qed.


Lemma signup_run_store_ok activity_name email now db :
  store_ok db ->
  store_ok (committed (snd (signup activity_name email now (idle None db)))).
Proof.
  intros OK. rewrite signup_run.
  destruct (find_activity activity_name db) as [a|] eqn:Ha; [|exact OK].
  apply find_activity_some in Ha as [Ha _]. cbv zeta.
  destruct (Activity.is_full a (participants_of db a)) eqn:Hfull; [exact OK|].
  destruct (find_user email db) as [u|] eqn:Hu.
  - apply find_user_some in Hu as [Hu _].
    destruct (user_in u _); [exact OK|].
    destruct (enrolled_in _ _ _); [exact OK|]. simpl.
    now apply store_ok_enroll.
  - destruct (validate_email_cases email) as [[Hm Hv]|[Hm Hv]];
      rewrite Hm; simpl; [|exact OK].
    destruct (negb _); [exact OK|].
    destruct (existsb _ _); [exact OK|].
    destruct (user_in _ _); [exact OK|].
    destruct (enrolled_in _ _ _); [exact OK|]. simpl.
    apply store_ok_enroll.
    + eapply store_ok_insert_user; eassumption.
    + exact Ha.
    + simpl. apply in_or_app. right. now left.
    + rewrite participants_insert_user; [exact Hfull|].
      intros aid. now apply new_user_not_enrolled.
Qed.

Lemma signup_store_ok faults activity_name email now db :
  store_ok db ->
  store_ok (committed (snd (signup activity_name email now (idle faults db)))).
Proof.
  intros OK.
  destruct (signup_faulty faults activity_name email now db)
    as [_ [(x & _ & -> & _)|(msg & _ & _ & -> & _)]]; [exact OK|].
  now apply signup_run_store_ok.
Qed.

Lemma unregister_store_ok faults activity_name email db :
  store_ok db ->
  store_ok (committed (snd (unregister activity_name email (idle faults db)))).
Proof.
  intros OK.
  destruct (unregister_faulty faults activity_name email db)
    as [_ [(x & _ & -> & _)|(msg & _ & _ & -> & _)]]; [exact OK|].
  rewrite unregister_run.
  destruct (find_activity activity_name db) as [a|]; [|exact OK].
  destruct (find_user email db) as [u|]; [|exact OK].
  destruct (negb _); [exact OK|]. simpl.
  now apply store_ok_delete.
Qed.

(** ** The seeded store *)

Lemma seeded_store_ok now : store_ok (seeded now).
Proof.
  constructor.
  - vm_compute. repeat (constructor; [simpl; intuition discriminate|]).
    constructor.
  - vm_compute. repeat (constructor; [simpl; intuition discriminate|]).
    constructor.
  - intros e He. vm_compute in He.
    repeat (destruct He as [<-|He]; [vm_compute; tauto|]). contradiction.
  - intros u Hu. vm_compute in Hu.
    repeat (destruct Hu as [<-|Hu]; [vm_compute; reflexivity|]). contradiction.
  - intros a Ha. vm_compute in Ha.
    repeat (destruct Ha as [<-|Ha]; [vm_compute; discriminate|]). contradiction.
Qed.

Lemma reachable_store_ok db : reachable db -> store_ok db.
Proof.
  induction 1.
  - apply seeded_store_ok.
  - now apply signup_store_ok.
  - now apply unregister_store_ok.
Qed.

(** ** The two phases of the seed *)

Lemma seed_activities_run now c us rows b n :
  for_each initial_activities (seed_activity now)
           (mkSession c (mkStore [] us rows) b n)
  = (Ok tt, mkSession c (mkStore (initial_rows now) us rows) b n).
Proof. vm_compute. reflexivity. Qed.

Lemma seed_enrollment_frame now pair c n acts s :
  phase2_frame c n acts s ->
  phase2_frame c n acts (snd (seed_enrollment now pair s)).
Proof.
  destruct pair as [email activity_name].
  destruct s as [c0 w b n0]. unfold phase2_frame. simpl.
  intros (-> & -> & <-).
  destruct b as [[|[|[|[|k]]]]|];
    cbv [seed_enrollment bind execute io read ret raise lift add_user
         participants_append modify budget working committed commits
         fst snd];
    repeat (case_step;
            cbn [committed working budget commits fst snd activities
                 insert_user insert_enrollment] in * );
    simpl; auto.
Qed.

Lemma for_each_frame {A} (body : A -> M unit) (P : Session -> Prop) :
  (forall x s, P s -> P (snd (body x s))) ->
  forall l s, P s -> P (snd (for_each l body s)).
Proof.
  intros Hbody. induction l as [|x l IH]; simpl; intros s Hs; [exact Hs|].
  unfold bind. specialize (Hbody x s Hs).
  destruct (body x s) as [[[]|e] s']; simpl in *; auto.
Qed.

Ltac proj :=
  cbn [committed working budget commits fst snd activities users
       activity_participants].

Lemma seed_noop faults now db :
  activities db <> [] ->
  let r := seed_initial_data now (idle faults db) in
  committed (snd r) = db /\ working (snd r) = db /\ commits (snd r) = 0 /\
  (faults <> Some 0 -> fst r = Ok tt).
Proof.
  intros Hne. destruct (activities db) as [|a l] eqn:E; [contradiction|].
  destruct faults as [[|k]|];
    cbv [seed_initial_data with_session finally bind execute io read ret idle
         discard committed working budget commits fst snd];
    rewrite ?E; proj; repeat split; congruence.
Qed.

Lemma seed_cases faults now db :
  activities db = [] ->
  let r := seed_initial_data now (idle faults db) in
  working (snd r) = committed (snd r) /\
  ((commits (snd r) = 0 /\ committed (snd r) = db /\ (exists e, fst r = Raise e)
    /\ faults <> None)
   \/ (commits (snd r) = 1 /\ committed (snd r) = activities_only now db
       /\ exists e, fst r = Raise e)
   \/ (commits (snd r) = 2 /\ fst r = Ok tt
       /\ activities (committed (snd r)) = initial_rows now)).
Proof.
  intros E. destruct db as [acts us rows]. cbn [activities] in E. subst acts.
  unfold seed_initial_data.
  set (loop1 := for_each initial_activities (seed_activity now)).
  set (loop2 := for_each initial_users_data (seed_enrollment now)).
  assert (H1 : forall c b n,
             loop1 (mkSession c (mkStore [] us rows) b n)
             = (Ok tt, mkSession c (mkStore (initial_rows now) us rows) b n))
    by (intros; apply seed_activities_run).
  assert (H2 : forall s,
             phase2_frame (activities_only now (mkStore [] us rows)) 1
                          (initial_rows now) s ->
             phase2_frame (activities_only now (mkStore [] us rows)) 1
                          (initial_rows now) (snd (loop2 s)))
    by (apply for_each_frame; intros; now apply seed_enrollment_frame).
  clearbody loop1 loop2.
  cbv [with_session finally idle discard execute bind io read ret commit
       committed working budget commits].
  destruct faults as [[|[|k]]|]; proj.
  - split; [reflexivity|]. left. repeat split; eauto. discriminate.
  - rewrite H1. proj. split; [reflexivity|]. left.
    repeat split; eauto. discriminate.
  - rewrite H1. proj.
    match goal with |- context [loop2 ?s] =>
      specialize (H2 s (conj eq_refl (conj eq_refl eq_refl)));
      destruct (loop2 s) as [[[]|e] [c2 w2 b2 n2]] end;
      destruct H2 as (F1 & F2 & F3); proj; cbn [committed working budget commits snd] in *;
      subst.
    + destruct b2 as [[|k2]|]; proj; (split; [reflexivity|]).
      * right. left. eauto.
      * right. right. auto.
      * right. right. auto.
    + split; [reflexivity|]. right. left. eauto.
  - rewrite H1. proj.
    match goal with |- context [loop2 ?s] =>
      specialize (H2 s (conj eq_refl (conj eq_refl eq_refl)));
      destruct (loop2 s) as [[[]|e] [c2 w2 b2 n2]] end;
      destruct H2 as (F1 & F2 & F3); proj; cbn [committed working budget commits snd] in *;
      subst.
    + destruct b2 as [[|k2]|]; proj; (split; [reflexivity|]).
      * right. left. eauto.
      * right. right. auto.
      * right. right. auto.
    + split; [reflexivity|]. right. left. eauto.
Qed.

(** ** Signup followed by unregister *)

Lemma delete_enroll db a u now :
  enrolled_in (activity_participants db) (Activity.id a) (User.id u) = false ->
  activity_participants
    (delete_enrollment (enroll db a u now) (Activity.id a) (User.id u))
  = activity_participants db.
Proof.
  intros H. unfold delete_enrollment, enroll, insert_enrollment. simpl.
  rewrite filter_app, filter_not_pair_id by assumption. simpl.
  unfold is_pair. simpl. rewrite !Nat.eqb_refl. simpl. apply app_nil_r.
Qed.

Lemma participants_of_ext db db' a :
  users db' = users db -> activity_participants db' = activity_participants db ->
  participants_of db' a = participants_of db a.
Proof. unfold participants_of. now intros -> ->. Qed.

(** ** Filling an activity, and case variants of stored addresses *)

Lemma reachable_signup_all activity_name emails now : forall db,
  reachable db -> reachable (signup_all activity_name emails now db).
Proof.
  unfold signup_all. induction emails as [|e l IH]; simpl; intros db R; [exact R|].
  apply IH. now apply reach_signup.
Qed.

Lemma stored_email_not_variant db u variant :
  store_ok db -> In u (users db) ->
  Str.lower variant = User.email u -> variant <> User.email u ->
  find_user variant db = None.
Proof.
  intros OK Hu Hl Hne. destruct (find_user variant db) as [v|] eqn:Hv;
    [|reflexivity].
  apply find_user_some in Hv as [Hv Ev].
  pose proof (ok_emails OK v Hv) as Hn. rewrite Ev in Hn.
  destruct (validate_email_cases variant) as [[_ H]|[_ H]];
    rewrite H in Hn; [|discriminate].
  injection Hn as Hn. congruence.
Qed.

(** ** Participants and the association table *)



(** No stored address fails the validator, so a malformed one finds no
    user. *)
Lemma malformed_not_stored db email :
  store_ok db ->
  Re.match_anchored User.email_pattern email = false ->
  find_user email db = None.
Proof.
  intros OK Hm. destruct (find_user email db) as [v|] eqn:Hv; [|reflexivity].
  apply find_user_some in Hv as [Hv Ev].
  pose proof (ok_emails OK v Hv) as Hn. rewrite Ev in Hn.
  destruct (validate_email_cases email) as [[H _]|[_ H]]; congruence.
Qed.

(* ------------------------------------------------------------------ *)
(** * The claims *)

(** C4. In every store that sequential signup and unregister requests
    reach from a seeded store, every activity has between zero and
    [max_participants] participants. *)
Theorem capacity_invariant db a :
  reachable db -> In a (activities db) ->
  (0 <= participant_count db a <= Activity.max_participants a)%Z.
Proof.
  intros R Ha. split.
  - unfold participant_count. lia.
  - apply (ok_capacity (reachable_store_ok R)). exact Ha.
Qed.

Lemma capacity_invariant_witness :
  let db := committed (snd (signup "Chess Club" "newkid@mergington.edu" 5
                                   (idle None (seeded 3)))) in
  (0 <= participant_count db (chess_club 3%nat)
   <= Activity.max_participants (chess_club 3%nat))%Z.
Proof.
  intros db. apply capacity_invariant.
  - apply reach_signup. apply reach_seeded.
  - vm_compute. left. reflexivity.
Defined.




(** C5. Running the seed twice in a row (with a working storage) ends in
    the store that one run leaves: after the first run the activity table
    is not empty, and the second run returns without a commit and without
    any change. *)
Theorem seed_twice_is_seed_once db now1 now2 :
  let r1 := seed_initial_data now1 (idle None db) in
  let r2 := seed_initial_data now2 (idle None (committed (snd r1))) in
  activities (committed (snd r1)) <> [] /\
  fst r2 = Ok tt /\ commits (snd r2) = 0 /\
  committed (snd r2) = committed (snd r1).
Proof.
  intros r1 r2.
  assert (Hne : activities (committed (snd r1)) <> []).
  { subst r1. destruct (activities db) as [|a l] eqn:E.
    - destruct (seed_cases None now1 db E)
        as [_ [(_ & _ & _ & F)|[(_ & -> & _)|(_ & _ & ->)]]];
        [congruence|discriminate|discriminate].
    - destruct (seed_noop None now1 db) as (-> & _); rewrite E; discriminate. }
  split; [exact Hne|].
  destruct (seed_noop None now2 (committed (snd r1)) Hne) as (H1 & _ & H3 & H4).
  repeat split; auto. apply H4. discriminate.
Qed.

(** C9. The seed is not atomic. When a run on a store without activities
    stops after its first commit, it has raised, and the store holds the
    nine activities while users and enrollments are what they were before
    the run; every later run of the seed, whatever the storage does,
    leaves that store as it is and commits nothing. *)
Theorem seed_failure_between_commits db now faults :
  activities db = [] ->
  let r := seed_initial_data now (idle faults db) in
  commits (snd r) = 1 ->
  (exists e, fst r = Raise e) /\
  committed (snd r) = activities_only now db /\
  forall faults' now',
    let r' := seed_initial_data now' (idle faults' (committed (snd r))) in
    committed (snd r') = committed (snd r) /\ commits (snd r') = 0.
Proof.
  intros E r H1. subst r.
  destruct (seed_cases faults now db E)
    as [_ [(F & _)|[(_ & F2 & F3)|(F & _)]]]; try congruence.
  repeat split; auto.
  - apply seed_noop. rewrite F2. discriminate.
  - apply seed_noop. rewrite F2. discriminate.
Qed.

Lemma seed_failure_between_commits_witness :
  let r := seed_initial_data 0 (idle (Some 5) empty_store) in
  (exists e, fst r = Raise e) /\
  committed (snd r) = activities_only 0 empty_store /\
  forall faults' now',
    let r' := seed_initial_data now' (idle faults' (committed (snd r))) in
    committed (snd r') = committed (snd r) /\ commits (snd r') = 0.
Proof.
  apply (seed_failure_between_commits empty_store 0 (Some 5)).
  - reflexivity.
  - vm_compute. reflexivity.
Defined.

(** C6. A successful signup followed by a successful unregister for the
    same activity and e-mail leaves the activity with the participants it
    had before the signup; the enrollment table is as it was. *)
Theorem signup_then_unregister db activity_name email now f1 f2 a m1 m2 :
  find_activity activity_name db = Some a ->
  let r1 := signup activity_name email now (idle f1 db) in
  let r2 := unregister activity_name email (idle f2 (committed (snd r1))) in
  fst r1 = Ok m1 -> fst r2 = Ok m2 ->
  participants_of (committed (snd r2)) a = participants_of db a /\
  activity_participants (committed (snd r2)) = activity_participants db.
Proof.
  intros Ha r1 r2 H1 H2. subst r1 r2.
  destruct (signup_faulty f1 activity_name email now db)
    as [_ [(x & Hx & _)|(msg & _ & S0 & S1 & _)]]; [congruence|].
  rewrite S1 in *. clear S1 H1.
  destruct (unregister_faulty f2 activity_name email
              (committed (snd (signup activity_name email now (idle None db)))))
    as [_ [(x & Hx & _)|(msg' & _ & U0 & U1 & _)]]; [congruence|].
  rewrite U1. clear U1 H2.
  rewrite unregister_run in *.
  rewrite signup_run, Ha in *. cbv zeta in *.
  destruct (Activity.is_full a (participants_of db a)); [discriminate|].
  destruct (find_user email db) as [u|] eqn:Hu.
  - destruct (user_in u (participants_of db a)); [discriminate|].
    destruct (enrolled_in _ _ _) eqn:En; [discriminate|].
    cbn [fst snd committed] in *.
    replace (find_activity activity_name (enroll db a u now)) with (Some a) in *
      by (symmetry; exact Ha).
    replace (find_user email (enroll db a u now)) with (Some u) in *
      by (symmetry; exact Hu).
    destruct (negb _); [discriminate|]. cbn [fst snd committed] in *.
    split.
    + apply participants_of_ext; [reflexivity|now apply delete_enroll].
    + now apply delete_enroll.
  - destruct (negb (Re.match_anchored _ _)); [discriminate|].
    destruct (negb (Str.contains_char _ _)); [discriminate|].
    destruct (existsb _ _); [discriminate|].
    destruct (user_in _ _); [discriminate|].
    destruct (enrolled_in _ _ _) eqn:En; [discriminate|].
    cbn [fst snd committed] in *.
    set (u := new_user db (Str.lower email) now) in *.
    replace (find_activity activity_name (enroll (insert_user db u) a u now))
      with (Some a) in * by (symmetry; exact Ha).
    assert (Hf : find_user email (enroll (insert_user db u) a u now)
                 = find_user email (mkStore [] [u] [])).
    { unfold find_user. cbn [users enroll insert_enrollment insert_user].
      now rewrite find_app_none. }
    rewrite Hf in *. unfold find_user in U0 |- *. cbn [users find] in *.
    destruct (User.email u =? email); [|discriminate].
    destruct (negb _); [discriminate|]. cbn [fst snd committed] in *.
    assert (D : activity_participants
                  (delete_enrollment (enroll (insert_user db u) a u now)
                                     (Activity.id a) (User.id u))
                = activity_participants db)
      by (now apply (delete_enroll (insert_user db u))).
    split; [|exact D].
    unfold participants_of. rewrite D.
    cbn [users insert_user enroll delete_enrollment insert_enrollment].
    rewrite filter_app. cbn [filter]. rewrite En. apply app_nil_r.
Qed.

Lemma signup_then_unregister_witness :
  let r1 := signup "Chess Club" "newkid@mergington.edu" 5 (idle None (seeded 3)) in
  let r2 := unregister "Chess Club" "newkid@mergington.edu"
                       (idle None (committed (snd r1))) in
  participants_of (committed (snd r2)) (chess_club 3)
  = participants_of (seeded 3) (chess_club 3) /\
  activity_participants (committed (snd r2)) = activity_participants (seeded 3).
Proof.
  apply signup_then_unregister
    with (m1 := "Signed up newkid@mergington.edu for Chess Club")
         (m2 := "Unregistered newkid@mergington.edu from Chess Club").
  - vm_compute. reflexivity.
  - vm_compute. reflexivity.
  - vm_compute. reflexivity.
Defined.


(** C10 (amended). In a reachable store, when the activity exists and is
    not full, signing up with a spelling of an enrolled student's address
    that differs from the stored one only by letter case finds no user (the
    lookup compares the strings exactly), validates to the stored address,
    and is answered by HTTP 400 with the data-integrity message; the store
    is left as it was. *)
Theorem signup_case_variant db a u activity_name variant now :
  reachable db ->
  find_activity activity_name db = Some a ->
  In u (users db) -> user_in u (participants_of db a) = true ->
  Str.lower variant = User.email u -> variant <> User.email u ->
  Activity.is_full a (participants_of db a) = false ->
  find_user variant db = None /\
  User.validate_email variant = Ok (User.email u) /\
  signup activity_name variant now (idle None db)
  = (Raise (HTTPException 400
              "Data integrity error - possibly invalid email format"),
     idle None db).
Proof.
  intros R Ha Hu Hin Hl Hne Hfull.
  pose proof (reachable_store_ok R) as OK.
  pose proof (@stored_email_not_variant db u variant OK Hu Hl Hne) as Hnone.
  assert (Hv : User.validate_email variant = Ok (User.email u)).
  { rewrite <- validate_email_lower, Hl. now apply (ok_emails OK). }
  repeat split; auto.
  rewrite signup_run, Ha. cbv zeta. rewrite Hfull, Hnone.
  destruct (validate_email_cases variant) as [[Hm H]|[Hm H]];
    rewrite H in Hv; [|discriminate].
  rewrite Hm. cbn [negb]. cbv zeta.
  rewrite (validate_email_has_at _ H). cbn [negb]. rewrite Hl.
  assert (existsb (fun v => User.email v =? User.email u) (users db) = true) as ->.
  { apply existsb_exists. exists u. split; [exact Hu|apply String.eqb_refl]. }
  reflexivity.
Qed.

(** The amended C10 at the seeded store: michael in capitals, Chess Club. *)
Lemma signup_case_variant_witness :
  find_user "MICHAEL@mergington.edu" (seeded 3) = None /\
  User.validate_email "MICHAEL@mergington.edu" = Ok "michael@mergington.edu" /\
  signup "Chess Club" "MICHAEL@mergington.edu" 5 (idle None (seeded 3))
  = (Raise (HTTPException 400
              "Data integrity error - possibly invalid email format"),
     idle None (seeded 3)).
Proof.
  apply (@signup_case_variant (seeded 3) (chess_club 3)
           (User.mk 1 "michael@mergington.edu" None None None "student" 3)).
  - apply reach_seeded.
  - vm_compute. reflexivity.
  - vm_compute. left. reflexivity.
  - vm_compute. reflexivity.
  - vm_compute. reflexivity.
  - vm_compute. discriminate.
  - vm_compute. reflexivity.
Defined.

(** C10 as stated fails when the activity is full: with Math Club filled
    to its ten places, the capitalised address of james, who is enrolled,
    is answered by "Activity is full", not by the integrity error. *)
Lemma signup_case_variant_full_counterexample :
  ~ (forall db a u activity_name variant now,
       reachable db ->
       find_activity activity_name db = Some a ->
       In u (users db) -> user_in u (participants_of db a) = true ->
       Str.lower variant = User.email u -> variant <> User.email u ->
       fst (signup activity_name variant now (idle None db))
       = Raise (HTTPException 400
                  "Data integrity error - possibly invalid email format")).
Proof.
  intros H.
  specialize (H math_club_full
                (Activity.mk 8 "Math Club"
                   "Solve challenging problems and participate in math competitions"
                   "Tuesdays, 3:30 PM - 4:30 PM" 10 0 None)
                (User.mk 15 "james@mergington.edu" None None None "student" 0)
                "Math Club" "JAMES@mergington.edu" 2).
  assert (E : fst (signup "Math Club" "JAMES@mergington.edu" 2
                          (idle None math_club_full))
              = Raise (HTTPException 400 "Activity is full"))
    by (vm_compute; reflexivity).
  rewrite E in H.
  discriminate H.
  - apply reachable_signup_all, reach_seeded.
  - vm_compute. reflexivity.
  - vm_compute. tauto.
  - vm_compute. reflexivity.
  - vm_compute. reflexivity.
  - vm_compute. discriminate.
Qed.



(** C3. In a reachable store, for an activity that exists and is not full,
    an address that does not match the pattern of [User.validate_email]
    makes [signup] end with the [ValueError] of the validator, which no
    [except] clause of the handler turns into an [HTTPException]: the
    caller is not answered with status 400. The store is left as it was. *)
Theorem signup_malformed_email db a activity_name email now :
  reachable db ->
  find_activity activity_name db = Some a ->
  Activity.is_full a (participants_of db a) = false ->
  Re.match_anchored User.email_pattern email = false ->
  signup activity_name email now (idle None db)
  = (Raise (ValueError "Invalid email format"), idle None db).
Proof.
  intros R Ha Hfull Hm.
  pose proof (@malformed_not_stored db email (reachable_store_ok R) Hm)
    as Hnone.
  rewrite signup_run, Ha. cbv zeta. rewrite Hfull, Hnone, Hm. reflexivity.
Qed.

(** C3 at the seeded store: "not-an-email" for the Chess Club. *)
Lemma signup_malformed_email_witness :
  signup "Chess Club" "not-an-email" 5 (idle None (seeded 3))
  = (Raise (ValueError "Invalid email format"), idle None (seeded 3)).
Proof.
  apply (@signup_malformed_email (seeded 3) (chess_club 3)).
  - apply reach_seeded.
  - vm_compute. reflexivity.
  - vm_compute. reflexivity.
  - vm_compute. reflexivity.
Defined.



(* ------------------------------------------------------------------ *)
(** * Further properties of the code *)
(** ** The matcher and the language *)

Module Lang.


Lemma append_assoc s t u : (s ++ t) ++ u = s ++ t ++ u.
Proof. induction s as [|c s IH]; simpl; [reflexivity|now rewrite IH]. Qed.

Lemma append_eq_nil s t : s ++ t = "" -> s = "" /\ t = "".
Proof. destruct s; simpl; [auto|discriminate]. Qed.

Lemma contains_char_append x s t :
  Str.contains_char x (s ++ t) = Str.contains_char x s || Str.contains_char x t.
Proof.
  induction s as [|c s IH]; simpl; [reflexivity|].
  now rewrite IH, orb_assoc.
Qed.

Lemma matches_cat_inv a b s :
  matches (Re.Cat a b) s ->
  exists s1 s2, s = s1 ++ s2 /\ matches a s1 /\ matches b s2.
Proof. inversion 1; subst; eauto. Qed.

Lemma matches_alt_inv a b s :
  matches (Re.Alt a b) s -> matches a s \/ matches b s.
Proof. inversion 1; subst; auto. Qed.

(** A non-empty string of [a*] starts with a non-empty string of [a]. *)
Lemma matches_star_cons_inv a c s :
  matches (Re.Star a) (String c s) ->
  exists s1 s2, s = s1 ++ s2 /\ matches a (String c s1) /\ matches (Re.Star a) s2.
Proof.
  intros H. remember (Re.Star a) as r eqn:Er.
  remember (String c s) as w eqn:Ew.
  revert c s Ew. induction H; intros c0 s0 Ew; try discriminate.
  injection Er as ->.
  destruct s as [|c1 s1].
  - simpl in Ew. now apply IHmatches2.
  - simpl in Ew. injection Ew as -> <-. eauto.
Qed.

Lemma nullable_matches r : Re.nullable r = true <-> matches r "".
Proof.
  induction r; simpl.
  - split; [discriminate|inversion 1].
  - split; [constructor|reflexivity].
  - split; [discriminate|inversion 1].
  - split; [discriminate|inversion 1].
  - rewrite andb_true_iff, IHr1, IHr2. split.
    + intros [H1 H2]. change "" with ("" ++ ""). now constructor.
    + intros H. apply matches_cat_inv in H as (s1 & s2 & E & H1 & H2).
      symmetry in E. apply append_eq_nil in E as [-> ->]. auto.
  - rewrite orb_true_iff, IHr1, IHr2. split.
    + intros [H|H]; [now apply matches_alt_l|now apply matches_alt_r].
    + apply matches_alt_inv.
  - split; [constructor|reflexivity].
Qed.

Lemma deriv_matches r : forall c s,
  matches (Re.deriv c r) s <-> matches r (String c s).
Proof.
  induction r; intros c s; simpl.
  - split; inversion 1.
  - split; inversion 1.
  - destruct (Ascii.eqb_spec c a) as [->|Hne].
    + split.
      * inversion 1; subst. constructor.
      * inversion 1; subst. constructor.
    + split; inversion 1; subst. contradiction.
  - destruct (Ascii.eqb_spec c a) as [->|Hne].
    + split; inversion 1; subst. contradiction.
    + split.
      * inversion 1; subst. now constructor.
      * inversion 1; subst. constructor.
  - assert (L : matches (Re.Cat (Re.deriv c r1) r2) s ->
                matches (Re.Cat r1 r2) (String c s)).
    { intros H. apply matches_cat_inv in H as (s1 & s2 & -> & H1 & H2).
      apply IHr1 in H1. change (String c (s1 ++ s2)) with (String c s1 ++ s2).
      now constructor. }
    assert (R : matches (Re.Cat r1 r2) (String c s) ->
                matches (Re.Cat (Re.deriv c r1) r2) s \/
                (matches r1 "" /\ matches (Re.deriv c r2) s)).
    { intros H. apply matches_cat_inv in H as (s1 & s2 & E & H1 & H2).
      destruct s1 as [|c1 s1]; simpl in E.
      - right. subst s2. split; [exact H1|now apply IHr2].
      - injection E as <- ->. left. apply IHr1 in H1. now constructor. }
    destruct (Re.nullable r1) eqn:N.
    + split.
      * intros H. apply matches_alt_inv in H as [H|H]; [now apply L|].
        apply IHr2 in H. apply nullable_matches in N.
        change (String c s) with ("" ++ String c s). now constructor.
      * intros H. apply R in H as [H|[_ H]];
          [now apply matches_alt_l|now apply matches_alt_r].
    + split; [exact L|].
      intros H. apply R in H as [H|[H _]]; [exact H|].
      apply nullable_matches in H. congruence.
  - split.
    + intros H. apply matches_alt_inv in H as [H|H].
      * apply matches_alt_l. now apply IHr1.
      * apply matches_alt_r. now apply IHr2.
    + intros H. apply matches_alt_inv in H as [H|H].
      * apply matches_alt_l. now apply IHr1.
      * apply matches_alt_r. now apply IHr2.
  - split.
    + intros H. apply matches_cat_inv in H as (s1 & s2 & -> & H1 & H2).
      apply IHr in H1. change (String c (s1 ++ s2)) with (String c s1 ++ s2).
      now constructor.
    + intros H. apply matches_star_cons_inv in H as (s1 & s2 & -> & H1 & H2).
      apply IHr in H1. now constructor.
Qed.

Lemma fullmatch_matches s : forall r,
  Re.fullmatch r s = true <-> matches r s.
Proof.
  unfold Re.fullmatch. induction s as [|c s IH]; intros r; simpl.
  - apply nullable_matches.
  - rewrite IH. apply deriv_matches.
Qed.

(** [[^x]*] is the strings without [x]. *)
Lemma matches_star_notchr x s :
  matches (Re.Star (Re.NotChr x)) s <-> Str.contains_char x s = false.
Proof.
  split.
  - intros H. remember (Re.Star (Re.NotChr x)) as r eqn:Er.
    induction H; try discriminate; [reflexivity|].
    injection Er as ->. rewrite contains_char_append, IHmatches2 by reflexivity.
    inversion H; subst. simpl.
    destruct (Ascii.eqb_spec c x); [contradiction|reflexivity].
  - induction s as [|c s IH]; simpl; [constructor|].
    intros H. apply orb_false_iff in H as [H1 H2].
    change (String c s) with (String c "" ++ s).
    constructor; [|now apply IH].
    constructor. intros ->. now rewrite Ascii.eqb_refl in H1.
Qed.

(** [[^x]+] is the non-empty strings without [x]. *)
Lemma matches_plus_notchr x s :
  matches (Re.Plus (Re.NotChr x)) s <->
  s <> "" /\ Str.contains_char x s = false.
Proof.
  unfold Re.Plus. split.
  - intros H. apply matches_cat_inv in H as (s1 & s2 & -> & H1 & H2).
    apply matches_star_notchr in H2. inversion H1; subst. simpl. split.
    + discriminate.
    + rewrite H2. destruct (Ascii.eqb_spec c x); [contradiction|reflexivity].
  - intros [Hne H]. destruct s as [|c s]; [contradiction|].
    simpl in H. apply orb_false_iff in H as [H1 H2].
    change (String c s) with (String c "" ++ s).
    constructor; [|now apply matches_star_notchr].
    constructor. intros ->. now rewrite Ascii.eqb_refl in H1.
Qed.

Lemma matches_chr_inv c s : matches (Re.Chr c) s -> s = String c "".
Proof. inversion 1; reflexivity. Qed.

(** The language of the pattern of [User.validate_email]. *)
Lemma matches_email_pattern s :
  matches User.email_pattern s <->
  exists l d t, s = l ++ "@" ++ d ++ "." ++ t /\
                email_part l /\ email_part d /\ email_part t.
Proof.
  unfold User.email_pattern, email_part. split.
  - intros H.
    apply matches_cat_inv in H as (l & r1 & -> & Hl & H).
    apply matches_cat_inv in H as (a & r2 & -> & Ha & H).
    apply matches_cat_inv in H as (d & r3 & -> & Hd & H).
    apply matches_cat_inv in H as (p & t & -> & Hp & Ht).
    apply matches_chr_inv in Ha, Hp. subst a p.
    apply matches_plus_notchr in Hl, Hd, Ht.
    exists l, d, t. auto.
  - intros (l & d & t & -> & Hl & Hd & Ht).
    apply matches_plus_notchr in Hl, Hd, Ht.
    repeat (constructor; try assumption).
Qed.

Lemma last_char_drop_last s c :
  Str.last_char s = Some c -> s = Str.drop_last s ++ String c "".
Proof.
  induction s as [|c0 s IH]; [discriminate|].
  destruct s as [|c1 s]; simpl in *.
  - now intros [= ->].
  - intros H. f_equal. now apply IH.
Qed.

End Lang.

(** X1. [User.validate_email] accepts exactly the addresses of the shape
    local@domain.tld: three non-empty parts without [@], separated by one
    [@] and by a dot after it. Nothing else about the parts is checked:
    they may hold spaces, further dots or a line break. *)
Theorem validate_email_accepts address :
  (exists em, User.validate_email address = Ok em) <->
  (exists l d t, address = l ++ "@" ++ d ++ "." ++ t /\
                 email_part l /\ email_part d /\ email_part t).
Proof.
  rewrite <- Lang.matches_email_pattern, <- Lang.fullmatch_matches.
  unfold User.validate_email, Re.match_anchored.
  destruct (Re.fullmatch User.email_pattern address) eqn:F; simpl.
  - split; eauto.
  - destruct (Str.last_char address) as [c|] eqn:L; simpl.
    + destruct (Ascii.eqb_spec c Re.newline) as [->|Hne]; simpl.
      * destruct (Re.fullmatch User.email_pattern (Str.drop_last address))
          eqn:F'; simpl.
        -- exfalso. apply Lang.fullmatch_matches in F'.
           apply Lang.matches_email_pattern in F'
             as (l & d & t & E & Hl & Hd & [Ht1 Ht2]).
           apply Lang.last_char_drop_last in L. rewrite E in L.
           assert (M : matches User.email_pattern address).
           { apply Lang.matches_email_pattern.
             exists l, d, (t ++ String Re.newline "").
             repeat split; try apply Hl; try apply Hd.
             - rewrite L. now rewrite !Lang.append_assoc.
             - intros X. apply Lang.append_eq_nil in X as [_ X]. discriminate.
             - rewrite Lang.contains_char_append, Ht2. reflexivity. }
           apply Lang.fullmatch_matches in M. congruence.
        -- split; [intros [em H]; discriminate|discriminate].
      * split; [intros [em H]; discriminate|discriminate].
    + split; [intros [em H]; discriminate|discriminate].
Qed.


(** ** [str.strip] *)

Module StripFacts.
Import Str.



















End StripFacts.


(** ** What a request commits *)

(** A signup that succeeds, whatever the storage did on the way. *)
Lemma signup_success faults activity_name email now db msg :
  fst (signup activity_name email now (idle faults db)) = Ok msg ->
  let db' := committed (snd (signup activity_name email now (idle faults db))) in
  msg = signed_up_message activity_name email /\
  exists a,
    find_activity activity_name db = Some a /\
    Activity.is_full a (participants_of db a) = false /\
    ((exists u, find_user email db = Some u /\
                user_in u (participants_of db a) = false /\
                enrolled_in (activity_participants db)
                            (Activity.id a) (User.id u) = false /\
                db' = enroll db a u now)
     \/
     (find_user email db = None /\
      User.validate_email email = Ok (Str.lower email) /\
      existsb (fun v => String.eqb (User.email v) (Str.lower email))
              (users db) = false /\
      db' = enroll (insert_user db (new_user db (Str.lower email) now)) a
                   (new_user db (Str.lower email) now) now)).
Proof.
  intros H db'. subst db'.
  destruct (signup_faulty faults activity_name email now db)
    as [_ [(x & Hx & _)|(m & Hm & H0 & Hc & _)]]; [congruence|].
  rewrite Hc. rewrite H in Hm. injection Hm as <-.
  revert H0. rewrite signup_run.
  destruct (find_activity activity_name db) as [a|]; [|discriminate].
  cbv zeta.
  destruct (Activity.is_full a (participants_of db a)) eqn:Hfull;
    [discriminate|].
  destruct (find_user email db) as [u|] eqn:Hu.
  - destruct (user_in u _) eqn:Hin; [discriminate|].
    destruct (enrolled_in _ _ _) eqn:Hen; [discriminate|].
    cbn [fst snd committed]. intros [= <-].
    split; [reflexivity|]. exists a.
    split; [reflexivity|]. split; [exact Hfull|].
    left. exists u. auto.
  - destruct (validate_email_cases email) as [[Hm Hv]|[Hm Hv]];
      rewrite Hm; cbn [negb]; [|discriminate].
    destruct (negb _); [discriminate|].
    destruct (existsb _ _) eqn:Hex; [discriminate|].
    destruct (user_in _ _); [discriminate|].
    destruct (enrolled_in _ _ _); [discriminate|].
    cbn [fst snd committed]. intros [= <-].
    split; [reflexivity|]. exists a.
    split; [reflexivity|]. split; [exact Hfull|].
    right. auto.
Qed.

(** An unregister request that succeeds. *)
Lemma unregister_success faults activity_name email db msg :
  fst (unregister activity_name email (idle faults db)) = Ok msg ->
  let db' := committed (snd (unregister activity_name email (idle faults db))) in
  msg = unregistered_message activity_name email /\
  exists a u,
    find_activity activity_name db = Some a /\
    find_user email db = Some u /\
    user_in u (participants_of db a) = true /\
    db' = delete_enrollment db (Activity.id a) (User.id u).
Proof.
  intros H db'. subst db'.
  destruct (unregister_faulty faults activity_name email db)
    as [_ [(x & Hx & _)|(m & Hm & H0 & Hc & _)]]; [congruence|].
  rewrite Hc. rewrite H in Hm. injection Hm as <-.
  revert H0. rewrite unregister_run.
  destruct (find_activity activity_name db) as [a|]; [|discriminate].
  destruct (find_user email db) as [u|]; [|discriminate].
  destruct (user_in u _) eqn:Hin; cbn [negb]; [|discriminate].
  cbn [fst snd committed]. intros [= <-].
  split; [reflexivity|]. exists a, u. auto.
Qed.

Lemma signup_step faults activity_name email now db :
  let db' := committed (snd (signup activity_name email now (idle faults db))) in
  db' = db \/ step db db'.
Proof.
  intros db'.
  destruct (fst (signup activity_name email now (idle faults db))) as [msg|x]
    eqn:E.
  - right. apply signup_success in E as (_ & a & Ha & Hfull & H).
    apply find_activity_some in Ha as [Ha _]. fold db' in H.
    destruct H as [(u & Hu & _ & Hen & ->)|(_ & Hv & Hex & ->)].
    + apply find_user_some in Hu as [Hu _]. now constructor.
    + now apply step_join with (address := email).
  - left. subst db'.
    destruct (signup_faulty faults activity_name email now db)
      as [_ [(y & _ & Hc & _)|(m & Hm & _)]]; [exact Hc|congruence].
Qed.

Lemma unregister_step faults activity_name email db :
  let db' := committed (snd (unregister activity_name email (idle faults db))) in
  db' = db \/ step db db'.
Proof.
  intros db'.
  destruct (fst (unregister activity_name email (idle faults db))) as [msg|x]
    eqn:E.
  - right. apply unregister_success in E as (_ & a & u & Ha & Hu & _ & H).
    fold db' in H. rewrite H.
    apply find_activity_some in Ha as [Ha _].
    apply find_user_some in Hu as [Hu _]. now constructor.
  - left. subst db'.
    destruct (unregister_faulty faults activity_name email db)
      as [_ [(y & _ & Hc & _)|(m & Hm & _)]]; [exact Hc|congruence].
Qed.

(** Induction over the reachable stores by the committed changes. *)
Lemma reachable_step_ind (P : Store -> Prop) :
  (forall now, P (seeded now)) ->
  (forall db db', reachable db -> P db -> step db db' -> P db') ->
  forall db, reachable db -> P db.
Proof.
  intros Hs Hstep. induction 1 as [now|db n e now f R IH|db n e f R IH].
  - apply Hs.
  - destruct (signup_step f n e now db) as [->|S]; [exact IH|].
    exact (Hstep _ _ R IH S).
  - destruct (unregister_step f n e db) as [->|S]; [exact IH|].
    exact (Hstep _ _ R IH S).
Qed.

Lemma seeded_store_wf now : store_wf (seeded now).
Proof.
  constructor.
  - exists now. vm_compute. reflexivity.
  - vm_compute. repeat (constructor; [simpl; intuition discriminate|]).
    constructor.
  - intros u Hu. vm_compute in Hu.
    repeat (destruct Hu as [<-|Hu]; [vm_compute; auto|]). contradiction.
  - vm_compute. repeat (constructor; [simpl; intuition discriminate|]).
    constructor.
  - intros e He. vm_compute in He.
    repeat (destruct He as [<-|He]; [vm_compute; tauto|]). contradiction.
Qed.

Lemma existsb_email_false em l :
  existsb (fun v => String.eqb (User.email v) em) l = false ->
  ~ In em (map User.email l).
Proof.
  intros H Hin. apply in_map_iff in Hin as (v & Ev & Hv).
  assert (T : existsb (fun v => String.eqb (User.email v) em) l = true).
  { apply existsb_exists. exists v. split; [exact Hv|].
    now apply String.eqb_eq. }
  congruence.
Qed.

Lemma enrolled_in_false_pair rows aid uid :
  enrolled_in rows aid uid = false -> ~ In (aid, uid) (map pair_of rows).
Proof.
  intros H Hin. apply in_map_iff in Hin as (e & Ee & He).
  assert (T : enrolled_in rows aid uid = true).
  { apply existsb_exists. exists e. split; [exact He|].
    apply is_pair_true. unfold pair_of in Ee. now injection Ee. }
  congruence.
Qed.

Lemma NoDup_map_filter {A B} (f : A -> B) (p : A -> bool) l :
  NoDup (map f l) -> NoDup (map f (filter p l)).
Proof.
  induction l as [|x l IH]; simpl; [auto|].
  intros H. inversion H as [|? ? Hn Hd]; subst.
  destruct (p x); simpl; [|auto].
  constructor; [|auto].
  intros Hin. apply Hn. apply in_map_iff in Hin as (y & Ey & Hy).
  apply filter_In in Hy as [Hy _]. apply in_map_iff. eauto.
Qed.

Lemma step_store_wf db db' :
  store_ok db -> store_wf db -> step db db' -> store_wf db'.
Proof.
  intros OK WF S. destruct S as [a u now Ha Hu Hfull Hen
                                |a address em now Ha Hv Hex Hfull
                                |a u Ha Hu].
  - constructor; cbn [enroll insert_enrollment activities users
                      activity_participants].
    + apply (wf_activities WF).
    + apply (wf_emails WF).
    + apply (wf_defaults WF).
    + rewrite map_app. apply NoDup_snoc; [apply (wf_pairs WF)|].
      now apply enrolled_in_false_pair.
    + intros e He. apply in_app_or in He as [He|[<-|[]]].
      * now apply (wf_activity_refs WF).
      * cbn [activity_id]. now apply in_map.
  - constructor; cbn [enroll insert_enrollment insert_user activities users
                      activity_participants].
    + apply (wf_activities WF).
    + rewrite map_app. apply NoDup_snoc; [apply (wf_emails WF)|].
      now apply existsb_email_false.
    + intros v Hv'. apply in_app_or in Hv' as [Hv'|[<-|[]]].
      * now apply (wf_defaults WF).
      * cbn. auto.
    + rewrite map_app. apply NoDup_snoc; [apply (wf_pairs WF)|].
      apply enrolled_in_false_pair. now apply new_user_not_enrolled.
    + intros e He. apply in_app_or in He as [He|[<-|[]]].
      * now apply (wf_activity_refs WF).
      * cbn [activity_id]. now apply in_map.
  - constructor; cbn [delete_enrollment activities users
                      activity_participants].
    + apply (wf_activities WF).
    + apply (wf_emails WF).
    + apply (wf_defaults WF).
    + apply NoDup_map_filter, (wf_pairs WF).
    + intros e He. apply filter_In in He as [He _].
      now apply (wf_activity_refs WF).
Qed.

Lemma reachable_store_wf db : reachable db -> store_wf db.
Proof.
  revert db. apply reachable_step_ind.
  - apply seeded_store_wf.
  - intros db db' R WF S.
    exact (step_store_wf (reachable_store_ok R) WF S).
Qed.
(** ** The listing *)

Lemma dict_set_fresh {V} (d : list (string * V)) k v :
  ~ In k (map fst d) -> dict_set d k v = (d ++ [(k, v)])%list.
Proof.
  induction d as [|[k' v'] d IH]; simpl; [reflexivity|].
  intros H. destruct (String.eqb_spec k' k) as [->|Hne].
  - exfalso. apply H. now left.
  - rewrite IH; [reflexivity|]. intros Hin. apply H. now right.
Qed.

Lemma fold_dict_set_fresh {A V} (key : A -> string) (val : A -> V) l :
  forall d,
    NoDup (map fst d ++ map key l)%list ->
    fold_left (fun d a => dict_set d (key a) (val a)) l d
    = (d ++ map (fun a => (key a, val a)) l)%list.
Proof.
  induction l as [|x l IH]; intros d H; simpl.
  - now rewrite app_nil_r.
  - simpl in H. rewrite dict_set_fresh.
    + rewrite IH.
      * now rewrite <- app_assoc.
      * rewrite map_app, <- app_assoc. exact H.
    + intros Hin. apply NoDup_remove_2 in H. apply H.
      apply in_or_app. now left.
Qed.

Lemma dict_get_map {A V} (key : A -> string) (val : A -> V) l x :
  NoDup (map key l) -> In x l ->
  dict_get (map (fun a => (key a, val a)) l) (key x) = Some (val x).
Proof.
  induction l as [|y l IH]; simpl; [contradiction|].
  intros H Hin. inversion H as [|? ? Hn Hd]; subst.
  destruct Hin as [->|Hin].
  - now rewrite String.eqb_refl.
  - destruct (String.eqb_spec (key y) (key x)) as [E|_]; [|auto].
    exfalso. apply Hn. rewrite E. now apply in_map.
Qed.

Lemma initial_rows_names now :
  map Activity.name (initial_rows now)
  = map (fun data => fst (fst (fst data))) initial_activities.
Proof. vm_compute. reflexivity. Qed.

Lemma initial_names_NoDup :
  NoDup (map (fun data : string * string * string * Z => fst (fst (fst data)))
             initial_activities).
Proof.
  vm_compute. repeat (constructor; [simpl; intuition discriminate|]).
  constructor.
Qed.

Lemma reachable_names db :
  reachable db ->
  map Activity.name (activities db)
  = map (fun data => fst (fst (fst data))) initial_activities.
Proof.
  intros R. destruct (wf_activities (reachable_store_wf R)) as [now ->].
  apply initial_rows_names.
Qed.

Lemma list_activities_run db :
  list_activities (idle None db)
  = (Ok (fold_left (fun d a => dict_set d (Activity.name a) (activity_info db a))
                   (activities db) []),
     idle None db).
Proof. reflexivity. Qed.

(** X4. [GET /activities] never writes: whatever the storage does, the
    store and the commit counter are as before. It answers with the
    dictionary unless its one query fails, and then with status 500. *)
Theorem list_activities_read_only faults db :
  let r := list_activities (idle faults db) in
  committed (snd r) = db /\ working (snd r) = db /\ commits (snd r) = 0 /\
  fst r =
  match faults with
  | Some 0 =>
      Raise (HTTPException 500 "Error retrieving activities from database")
  | _ =>
      Ok (fold_left
            (fun d a => dict_set d (Activity.name a) (activity_info db a))
            (activities db) [])
  end.
Proof. destruct faults as [[|k]|]; repeat split; reflexivity. Qed.

(** X5. In a reachable store the listing has one entry for each of the
    nine seeded activities, in the order of the table and under the seeded
    names, and the entry of an activity is looked up by its name. *)
Theorem list_activities_entries db :
  reachable db ->
  exists listing,
    fst (list_activities (idle None db)) = Ok listing /\
    listing = map (fun a => (Activity.name a, activity_info db a))
                  (activities db) /\
    map fst listing
    = map (fun data => fst (fst (fst data))) initial_activities /\
    (forall a, In a (activities db) ->
               dict_get listing (Activity.name a) = Some (activity_info db a)).
Proof.
  intros R. pose proof (reachable_names R) as Hn.
  assert (ND : NoDup (map Activity.name (activities db)))
    by (rewrite Hn; apply initial_names_NoDup).
  eexists. split; [rewrite list_activities_run; reflexivity|].
  assert (E : fold_left (fun d a => dict_set d (Activity.name a) (activity_info db a))
                        (activities db) []
              = map (fun a => (Activity.name a, activity_info db a)) (activities db)).
  { now rewrite fold_dict_set_fresh. }
  rewrite E. split; [reflexivity|]. split.
  - rewrite map_map. exact Hn.
  - intros a Ha. now apply dict_get_map.
Qed.

(** X5 at a store seeded at time 3. *)
Lemma list_activities_entries_witness :
  exists listing,
    fst (list_activities (idle None (seeded 3))) = Ok listing /\
    listing = map (fun a => (Activity.name a, activity_info (seeded 3) a))
                  (activities (seeded 3)) /\
    map fst listing
    = map (fun data => fst (fst (fst data))) initial_activities /\
    (forall a, In a (activities (seeded 3)) ->
               dict_get listing (Activity.name a)
               = Some (activity_info (seeded 3) a)).
Proof. apply list_activities_entries, reach_seeded. Defined.

Lemma initial_rows_positive now a :
  In a (initial_rows now) -> (0 < Activity.max_participants a)%Z.
Proof.
  intros H. vm_compute in H.
  repeat (destruct H as [<-|H]; [reflexivity|]). contradiction.
Qed.

(** X6. The numbers of an entry agree in a reachable store: the free
    places are the maximum less the participants listed, they lie between
    zero and the maximum, the activity is reported full exactly when none
    is left, and no address is listed twice. *)
Theorem listing_numbers db a :
  reachable db -> In a (activities db) ->
  let i := activity_info db a in
  (info_available_spots i
   = info_max_participants i - Z.of_nat (List.length (info_participants i)))%Z /\
  (0 <= info_available_spots i <= info_max_participants i)%Z /\
  (0 < info_max_participants i)%Z /\
  (info_is_full i = true <-> info_available_spots i = 0%Z) /\
  NoDup (info_participants i).
Proof.
  intros R Ha i. subst i.
  pose proof (ok_capacity (reachable_store_ok R) a Ha) as Hc.
  pose proof (reachable_store_wf R) as WF.
  unfold participant_count in Hc.
  unfold activity_info, Activity.available_spots, Activity.is_full.
  cbn [info_available_spots info_max_participants info_participants
       info_is_full].
  rewrite length_map.
  set (n := Z.of_nat (List.length (participants_of db a))) in *.
  set (m := Activity.max_participants a).
  assert (Hm : (0 < m)%Z).
  { destruct (wf_activities WF) as [now E]. rewrite E in Ha.
    now apply initial_rows_positive in Ha. }
  assert (Hn : (0 <= n)%Z) by apply Nat2Z.is_nonneg.
  split; [reflexivity|]. split; [lia|]. split; [exact Hm|]. split.
  - rewrite Z.geb_leb, Z.leb_le. lia.
  - unfold participants_of. apply NoDup_map_filter, (wf_emails WF).
Qed.

(** X6 at a store seeded at time 3. *)
Lemma listing_numbers_witness :
  let i := activity_info (seeded 3) (chess_club 3) in
  (info_available_spots i
   = info_max_participants i - Z.of_nat (List.length (info_participants i)))%Z /\
  (0 <= info_available_spots i <= info_max_participants i)%Z /\
  (0 < info_max_participants i)%Z /\
  (info_is_full i = true <-> info_available_spots i = 0%Z) /\
  NoDup (info_participants i).
Proof.
  apply listing_numbers; [apply reach_seeded|vm_compute; tauto].
Defined.
(** ** Joining and leaving, counted *)

Lemma NoDup_map_eq {A B} (f : A -> B) l x y :
  NoDup (map f l) -> In x l -> In y l -> f x = f y -> x = y.
Proof.
  induction l as [|z l IH]; simpl; intros ND Hx Hy E; [contradiction|].
  inversion ND as [|? ? Hnin ND']; subst.
  destruct Hx as [->|Hx], Hy as [->|Hy]; auto.
  - exfalso. apply Hnin. rewrite E. now apply in_map.
  - exfalso. apply Hnin. rewrite <- E. now apply in_map.
Qed.

Lemma filter_or_key_absent {A} (key : A -> nat) (f : A -> bool) k l :
  ~ In k (map key l) ->
  filter (fun x => f x || Nat.eqb (key x) k) l = filter f l.
Proof.
  intros H. apply filter_ext_in. intros y Hy.
  destruct (Nat.eqb_spec (key y) k) as [E|E]; [|apply orb_false_r].
  exfalso. apply H. rewrite <- E. now apply in_map.
Qed.

Lemma filter_and_key_absent {A} (key : A -> nat) (f : A -> bool) k l :
  ~ In k (map key l) ->
  filter (fun x => f x && negb (Nat.eqb (key x) k)) l = filter f l.
Proof.
  intros H. apply filter_ext_in. intros y Hy.
  destruct (Nat.eqb_spec (key y) k) as [E|E]; [|apply andb_true_r].
  exfalso. apply H. rewrite <- E. now apply in_map.
Qed.

Lemma length_filter_plus_one {A} (key : A -> nat) (f : A -> bool) l u :
  NoDup (map key l) -> In u l -> f u = false ->
  List.length (filter (fun x => f x || Nat.eqb (key x) (key u)) l)
  = S (List.length (filter f l)).
Proof.
  induction l as [|x l IH]; simpl; intros ND Hu Fu; [contradiction|].
  inversion ND as [|? ? Hnin ND']; subst.
  destruct Hu as [->|Hu].
  - rewrite Fu, Nat.eqb_refl. simpl.
    now rewrite filter_or_key_absent.
  - assert (Hne : key x <> key u).
    { intros E. apply Hnin. rewrite E. now apply in_map. }
    apply Nat.eqb_neq in Hne. rewrite Hne, orb_false_r.
    destruct (f x); simpl; rewrite IH; auto.
Qed.

Lemma length_filter_minus_one {A} (key : A -> nat) (f : A -> bool) l u :
  NoDup (map key l) -> In u l -> f u = true ->
  S (List.length (filter (fun x => f x && negb (Nat.eqb (key x) (key u))) l))
  = List.length (filter f l).
Proof.
  induction l as [|x l IH]; simpl; intros ND Hu Fu; [contradiction|].
  inversion ND as [|? ? Hnin ND']; subst.
  destruct Hu as [->|Hu].
  - rewrite Fu, Nat.eqb_refl. simpl.
    now rewrite filter_and_key_absent.
  - assert (Hne : key x <> key u).
    { intros E. apply Hnin. rewrite E. now apply in_map. }
    apply Nat.eqb_neq in Hne. rewrite Hne. cbn [negb]. rewrite andb_true_r.
    destruct (f x); simpl; rewrite <- IH; auto.
Qed.

Lemma participants_enroll_eq db a u now :
  participants_of (enroll db a u now) a
  = filter (fun v => enrolled_in (activity_participants db)
                                 (Activity.id a) (User.id v)
                     || Nat.eqb (User.id v) (User.id u))
           (users db).
Proof.
  unfold participants_of, enroll, insert_enrollment. simpl.
  apply filter_ext. intros v.
  rewrite enrolled_in_app. simpl. unfold is_pair. simpl.
  rewrite Nat.eqb_refl. simpl. rewrite orb_false_r.
  now rewrite (Nat.eqb_sym (User.id u)).
Qed.

Lemma participants_delete_eq db a u :
  participants_of (delete_enrollment db (Activity.id a) (User.id u)) a
  = filter (fun v => enrolled_in (activity_participants db)
                                 (Activity.id a) (User.id v)
                     && negb (Nat.eqb (User.id v) (User.id u)))
           (users db).
Proof.
  unfold participants_of, delete_enrollment. simpl.
  apply filter_ext. intros v.
  rewrite enrolled_in_delete. now rewrite Nat.eqb_refl.
Qed.

Lemma participants_delete_other db a u a' :
  Activity.id a' <> Activity.id a ->
  participants_of (delete_enrollment db (Activity.id a) (User.id u)) a'
  = participants_of db a'.
Proof.
  intros Hne. unfold participants_of, delete_enrollment. simpl.
  apply filter_ext. intros v. rewrite enrolled_in_delete.
  apply Nat.eqb_neq in Hne. rewrite Hne. apply andb_true_r.
Qed.

Lemma other_activity_id db a a' :
  store_ok db -> In a (activities db) -> In a' (activities db) -> a' <> a ->
  Activity.id a' <> Activity.id a.
Proof.
  intros OK Ha Ha' Hne E. apply Hne.
  exact (NoDup_map_inj Activity.id (activities db) a' a
           (ok_activity_ids OK) Ha' Ha E).
Qed.

(** Stored addresses are in lower case. *)
Lemma stored_email_lower db u :
  store_ok db -> In u (users db) -> Str.lower (User.email u) = User.email u.
Proof.
  intros OK Hu. pose proof (ok_emails OK u Hu) as H.
  destruct (validate_email_cases (User.email u)) as [[_ E]|[_ E]];
    rewrite E in H; [|discriminate].
  now injection H.
Qed.

Lemma participant_in_users db a p :
  In p (participants_of db a) ->
  In p (users db) /\
  enrolled_in (activity_participants db) (Activity.id a) (User.id p) = true.
Proof. unfold participants_of. apply filter_In. Qed.



(** X8. An unregister request that succeeds, whatever the storage did on
    the way, removes one participant from the named activity and nothing
    else: the count of that activity drops by one, the address is no
    longer among its participants, no user row and no activity is deleted
    or changed, and the participants of every other activity are the
    same. *)
Theorem unregister_removes_participant faults activity_name email db msg :
  reachable db ->
  fst (unregister activity_name email (idle faults db)) = Ok msg ->
  let db' := committed (snd (unregister activity_name email (idle faults db))) in
  exists a,
    find_activity activity_name db = Some a /\
    activities db' = activities db /\ users db' = users db /\
    participant_count db' a = (participant_count db a - 1)%Z /\
    In email (map User.email (participants_of db a)) /\
    ~ In email (map User.email (participants_of db' a)) /\
    (forall a', In a' (activities db) -> a' <> a ->
                participants_of db' a' = participants_of db a').
Proof.
  intros R H db'.
  pose proof (reachable_store_ok R) as OK.
  pose proof (reachable_store_wf R) as WF.
  apply unregister_success in H as (_ & a & u & Ha & Hu & Hin & H).
  fold db' in H. rewrite H. clear H db'.
  exists a. split; [exact Ha|].
  apply find_activity_some in Ha as [Ha _].
  apply find_user_some in Hu as [Hu Eu].
  assert (Hen : enrolled_in (activity_participants db) (Activity.id a)
                            (User.id u) = true).
  { destruct (enrolled_in _ _ _) eqn:E; [reflexivity|].
    apply existsb_exists in Hin as (p & Hp & Ep).
    apply participant_in_users in Hp as [Hp Hpe]. apply Nat.eqb_eq in Ep.
    congruence. }
  split; [reflexivity|]. split; [reflexivity|].
  split; [|split; [|split]].
  - unfold participant_count. rewrite participants_delete_eq.
    pose proof (length_filter_minus_one User.id
                  (fun v => enrolled_in (activity_participants db)
                                        (Activity.id a) (User.id v))
                  (users db) u (ok_user_ids OK) Hu Hen) as L.
    unfold participants_of. lia.
  - apply in_map_iff. exists u. split; [exact Eu|].
    apply filter_In. auto.
  - intros Hp. apply in_map_iff in Hp as (p & Ep & Hp).
    rewrite participants_delete_eq in Hp.
    apply filter_In in Hp as [Hpu Hp].
    assert (p = u).
    { apply (NoDup_map_eq User.email (users db)); try assumption.
      - apply (wf_emails WF).
      - congruence. }
    subst p. rewrite Nat.eqb_refl, andb_false_r in Hp. discriminate.
  - intros a' Ha' Hne. apply participants_delete_other.
    now apply other_activity_id with (db := db).
Qed.

(** X8 at a store seeded at time 3. *)
Lemma unregister_removes_participant_witness :
  let db' := committed (snd (unregister "Chess Club" "daniel@mergington.edu"
                                        (idle None (seeded 3)))) in
  exists a,
    find_activity "Chess Club" (seeded 3) = Some a /\
    activities db' = activities (seeded 3) /\ users db' = users (seeded 3) /\
    participant_count db' a = (participant_count (seeded 3%nat) a - 1)%Z /\
    In "daniel@mergington.edu" (map User.email (participants_of (seeded 3) a)) /\
    ~ In "daniel@mergington.edu" (map User.email (participants_of db' a)) /\
    (forall a', In a' (activities (seeded 3)) -> a' <> a ->
                participants_of db' a' = participants_of (seeded 3) a').
Proof.
  apply (@unregister_removes_participant None "Chess Club"
           "daniel@mergington.edu" (seeded 3)
           "Unregistered daniel@mergington.edu from Chess Club").
  - apply reach_seeded.
  - vm_compute. reflexivity.
Defined.

(** X9. A request to unregister that has just succeeded is refused when
    it is repeated: status 400, "Student is not signed up for this
    activity", and the store stays as the first request left it. This
    holds in every store. *)
Theorem unregister_twice faults activity_name email db msg :
  fst (unregister activity_name email (idle faults db)) = Ok msg ->
  let db' := committed (snd (unregister activity_name email (idle faults db))) in
  unregister activity_name email (idle None db')
  = (Raise (HTTPException 400 "Student is not signed up for this activity"),
     idle None db').
Proof.
  intros H db'.
  apply unregister_success in H as (_ & a & u & Ha & Hu & Hin & H).
  fold db' in H. rewrite H. clear H db'.
  rewrite unregister_run.
  change (find_activity activity_name
            (delete_enrollment db (Activity.id a) (User.id u)))
    with (find_activity activity_name db).
  change (find_user email (delete_enrollment db (Activity.id a) (User.id u)))
    with (find_user email db).
  rewrite Ha, Hu.
  assert (user_in u (participants_of
                       (delete_enrollment db (Activity.id a) (User.id u)) a)
          = false) as ->; [|reflexivity].
  match goal with |- ?x = false => destruct x eqn:E end; [|reflexivity].
  apply existsb_exists in E as (p & Hp & Ep).
  rewrite participants_delete_eq in Hp. apply filter_In in Hp as [_ Hp].
  rewrite Ep, andb_false_r in Hp. discriminate.
Qed.

(** X9 at a store seeded at time 3. *)
Lemma unregister_twice_witness :
  let db' := committed (snd (unregister "Chess Club" "daniel@mergington.edu"
                                        (idle None (seeded 3)))) in
  unregister "Chess Club" "daniel@mergington.edu" (idle None db')
  = (Raise (HTTPException 400 "Student is not signed up for this activity"),
     idle None db').
Proof.
  apply (@unregister_twice None "Chess Club" "daniel@mergington.edu" (seeded 3)
           "Unregistered daniel@mergington.edu from Chess Club").
  vm_compute. reflexivity.
Defined.
(** ** Repeated and misspelt requests *)









(** ** The answers of the two handlers *)



(** ** The session of a request *)


(** X16. [GET /health] answers "healthy" exactly when its one query can
    run, also on a store without activities, and status 503 otherwise; it
    never writes. *)
Theorem health_answers faults db :
  let r := health (idle faults db) in
  committed (snd r) = db /\ working (snd r) = db /\ commits (snd r) = 0 /\
  fst r =
  match faults with
  | Some 0 => Raise (HTTPException 503 "Database connection failed")
  | _ => Ok [("status", "healthy"); ("database", "connected")]
  end.
Proof. destruct faults as [[|k]|]; repeat split; reflexivity. Qed.
(** ** Startup and migration *)


(** The seed run on a session with nothing pending: the store it
    commits. *)
Lemma seed_committed faults now db :
  let r := seed_initial_data now (idle faults db) in
  working (snd r) = committed (snd r) /\
  (activities db <> [] -> committed (snd r) = db /\ commits (snd r) = 0) /\
  (activities db = [] ->
   (committed (snd r) = db /\ commits (snd r) = 0) \/
   (committed (snd r) = activities_only now db /\ commits (snd r) = 1) \/
   (activities (committed (snd r)) = initial_rows now /\ commits (snd r) = 2
    /\ fst r = Ok tt)).
Proof.
  intros r. subst r. destruct (activities db) as [|a l] eqn:E.
  - destruct (seed_cases faults now db E)
      as [Hw [(H1 & H2 & _)|[(H1 & H2 & _)|(H1 & H2 & H3)]]].
    + split; [exact Hw|]. split; [congruence|]. intros _. left. auto.
    + split; [exact Hw|]. split; [congruence|]. intros _. right. left. auto.
    + split; [exact Hw|]. split; [congruence|]. intros _. right. right. auto.
  - assert (Hne : activities db <> []) by (rewrite E; discriminate).
    destruct (seed_noop faults now db Hne) as (H1 & H2 & H3 & _).
    split; [congruence|]. split; [auto|]. intros X. discriminate.
Qed.

Lemma startup_event_run faults now db :
  startup_event now (idle faults db) =
  match faults with
  | Some 0 => (Ok tt, idle (Some 0) db)
  | _ => (Ok tt, snd (seed_initial_data now (idle (option_map pred faults) db)))
  end.
Proof.
  unfold startup_event, init_database, try_except, bind, io, idle, ret, raise.
  destruct faults as [[|k]|]; cbn [budget committed working commits option_map pred].
  - reflexivity.
  - destruct (seed_initial_data now _) as [[[]|e] s']; reflexivity.
  - destruct (seed_initial_data now _) as [[[]|e] s']; reflexivity.
Qed.

(** X17. [startup_event] never raises, whatever the storage does, and
    leaves nothing uncommitted. A store that has activities is left as it
    is. A store without activities ends unchanged, with the nine
    activities only, or with the nine activities in the activities table;
    with a working storage the store is the one the seed commits. *)
Theorem startup_event_outcome faults now db :
  let r := startup_event now (idle faults db) in
  fst r = Ok tt /\
  working (snd r) = committed (snd r) /\
  (activities db <> [] -> committed (snd r) = db) /\
  (activities db = [] ->
   committed (snd r) = db \/
   committed (snd r) = activities_only now db \/
   activities (committed (snd r)) = initial_rows now) /\
  (faults = None ->
   committed (snd r)
   = committed (snd (seed_initial_data now (idle None db)))).
Proof.
  intros r. subst r. rewrite startup_event_run.
  destruct faults as [[|k]|]; cbn [fst snd option_map pred].
  - repeat split; auto; discriminate.
  - destruct (seed_committed (Some k) now db) as (Hw & Hn & He).
    split; [reflexivity|]. split; [exact Hw|]. split; [|split].
    + intros H. now apply Hn.
    + intros H. destruct (He H) as [[H1 _]|[[H1 _]|[H1 _]]]; auto.
    + discriminate.
  - destruct (seed_committed None now db) as (Hw & Hn & He).
    split; [reflexivity|]. split; [exact Hw|]. split; [|split].
    + intros H. now apply Hn.
    + intros H. destruct (He H) as [[H1 _]|[[H1 _]|[H1 _]]]; auto.
    + reflexivity.
Qed.



(** ** The health report *)

Lemma list_sum_bump {A} (key : A -> nat) (g g' : A -> nat) l x :
  NoDup (map key l) -> In x l ->
  g' x = S (g x) ->
  (forall y, In y l -> key y <> key x -> g' y = g y) ->
  list_sum (map g' l) = S (list_sum (map g l)).
Proof.
  induction l as [|z l IH]; simpl; intros ND Hx Ex Hy; [contradiction|].
  inversion ND as [|? ? Hnin ND']; subst.
  destruct Hx as [->|Hx].
  - rewrite Ex. simpl. do 3 f_equal. apply map_ext_in.
    intros y Hin. apply Hy; [now right|].
    intros E. apply Hnin. rewrite <- E. now apply in_map.
  - rewrite (IH ND' Hx Ex); [|intros y Hin; apply Hy; now right].
    rewrite (Hy z); [lia|now left|].
    intros E. apply Hnin. rewrite E. now apply in_map.
Qed.

(** Every row of the association table is counted once, with the
    activity it belongs to. *)
Lemma enrollments_counted acts us : 
  NoDup (map Activity.id acts) -> NoDup (map User.id us) ->
  forall rows,
    NoDup (map pair_of rows) ->
    (forall e, In e rows -> In (activity_id e) (map Activity.id acts)) ->
    (forall e, In e rows -> In (user_id e) (map User.id us)) ->
    list_sum (map (fun a =>
                     List.length
                       (filter (fun u => enrolled_in rows (Activity.id a)
                                                     (User.id u)) us))
                  acts)
    = List.length rows.
Proof.
  intros NDa NDu. induction rows as [|e rows IH]; intros ND Ha Hu.
  - simpl. clear.
    assert (filter (fun _ : User.t => false) us = []) as ->
      by (induction us; simpl; auto).
    induction acts as [|a acts IHa]; simpl; auto.
  - simpl in ND. inversion ND as [|? ? Hnin ND']; subst.
    cbn [List.length]. rewrite <- IH; auto using in_cons.
    destruct (proj1 (in_map_iff _ _ _) (Ha e (in_eq _ _))) as (a0 & Ea & Ha0).
    destruct (proj1 (in_map_iff _ _ _) (Hu e (in_eq _ _))) as (u0 & Eu & Hu0).
    assert (Hnew : enrolled_in rows (Activity.id a0) (User.id u0) = false).
    { destruct (enrolled_in _ _ _) eqn:E; [|reflexivity].
      exfalso. apply Hnin. apply enrolled_in_In in E as (e' & He' & E1 & E2).
      apply in_map_iff. exists e'. split; [|exact He'].
      unfold pair_of. congruence. }
    apply (list_sum_bump Activity.id) with (x := a0); auto.
    + rewrite <- (length_filter_plus_one User.id _ us u0 NDu Hu0 Hnew).
      f_equal. apply filter_ext. intros v.
      unfold enrolled_in. cbn [existsb]. unfold is_pair at 1.
      rewrite <- Ea, <- Eu, Nat.eqb_refl. cbn [andb].
      rewrite (Nat.eqb_sym (User.id u0)). apply orb_comm.
    + intros a Hin Hne. f_equal. apply filter_ext. intros v.
      unfold enrolled_in. cbn [existsb]. unfold is_pair at 1.
      rewrite <- Ea. apply Nat.eqb_neq in Hne.
      rewrite (Nat.eqb_sym (Activity.id a0)), Hne. reflexivity.
Qed.

Lemma check_database_health_run faults db :
  check_database_health (idle faults db) =
  match faults with
  | Some 0 => (Ok (false, None), idle (Some 0) db)
  | Some 1 => (Ok (false, None), idle (Some 0) db)
  | Some (S (S k)) =>
      (Ok (true, Some (health_report (select_activities_loaded db) (users db))),
       idle (Some k) db)
  | None =>
      (Ok (true, Some (health_report (select_activities_loaded db) (users db))),
       idle None db)
  end.
Proof. destruct faults as [[|[|k]]|]; reflexivity. Qed.

(** X19. [check_database_health] never writes and never raises: it
    returns [True] with the report when its two queries can run and
    [False] otherwise. In a reachable store the report counts the nine
    activities, the total of the enrollments it prints is the number of
    rows of the association table, and an activity is marked FULL exactly
    when the model's [is_full] holds. *)
Theorem check_database_health_report faults db :
  reachable db ->
  let r := check_database_health (idle faults db) in
  committed (snd r) = db /\ working (snd r) = db /\ commits (snd r) = 0 /\
  match fst r with
  | Ok (true, Some report) =>
      faults <> Some 0 /\ faults <> Some 1 /\
      report_activities report = 9 /\
      report_users report = List.length (users db) /\
      report_total_enrollments report
      = List.length (activity_participants db) /\
      map line_name (report_details report)
      = map Activity.name (activities db) /\
      (forall a, In a (activities db) ->
         In (mkLine (Activity.name a)
                    (List.length (participants_of db a))
                    (Activity.max_participants a)
                    (if Activity.is_full a (participants_of db a)
                     then FULL
                     else SpotsLeft (Activity.available_spots
                                       a (participants_of db a))))
            (report_details report))
  | Ok (false, None) => faults = Some 0 \/ faults = Some 1
  | _ => False
  end.
Proof.
  intros R r. subst r. rewrite check_database_health_run.
  pose proof (reachable_store_ok R) as OK.
  pose proof (reachable_store_wf R) as WF.
  assert (G : forall f, f <> Some 0 -> f <> Some 1 ->
    f <> Some 0 /\ f <> Some 1 /\
    report_activities (health_report (select_activities_loaded db) (users db)) = 9 /\
    report_users (health_report (select_activities_loaded db) (users db))
    = List.length (users db) /\
    report_total_enrollments (health_report (select_activities_loaded db) (users db))
    = List.length (activity_participants db) /\
    map line_name (report_details (health_report (select_activities_loaded db) (users db)))
    = map Activity.name (activities db) /\
    (forall a, In a (activities db) ->
       In (mkLine (Activity.name a)
                  (List.length (participants_of db a))
                  (Activity.max_participants a)
                  (if Activity.is_full a (participants_of db a)
                   then FULL
                   else SpotsLeft (Activity.available_spots
                                     a (participants_of db a))))
          (report_details (health_report (select_activities_loaded db) (users db))))).
  { intros f F0 F1. split; [exact F0|]. split; [exact F1|].
    unfold health_report, select_activities_loaded.
    cbn [report_activities report_users report_total_enrollments report_details].
    rewrite !length_map, !map_map. cbn [participants row].
    split; [|split; [reflexivity|split; [|split]]].
    - destruct (wf_activities WF) as [now ->]. reflexivity.
    - unfold participants_of.
      apply enrollments_counted.
      + apply (ok_activity_ids OK).
      + apply (ok_user_ids OK).
      + apply (wf_pairs WF).
      + apply (wf_activity_refs WF).
      + apply (ok_refs OK).
    - apply map_ext. reflexivity.
    - intros a Ha. apply in_map_iff. exists a. split; [|exact Ha].
      unfold activity_line. cbn [row participants]. f_equal.
      pose proof (ok_capacity OK a Ha) as Hc. unfold participant_count in Hc.
      unfold Activity.is_full, Activity.available_spots.
      destruct (Z.eqb_spec (Activity.max_participants a
                            - Z.of_nat (List.length (participants_of db a))) 0)
        as [E|E].
      + assert ((Z.of_nat (List.length (participants_of db a))
                 >=? Activity.max_participants a)%Z = true) as ->;
          [|reflexivity].
        rewrite Z.geb_leb. apply Z.leb_le. lia.
      + assert ((Z.of_nat (List.length (participants_of db a))
                 >=? Activity.max_participants a)%Z = false) as ->;
          [|reflexivity].
        rewrite Z.geb_leb. apply Z.leb_gt. lia. }
  destruct faults as [[|[|k]]|]; cbn [fst snd committed working commits idle].
  - repeat split; auto.
  - repeat split; auto.
  - split; [reflexivity|]. split; [reflexivity|]. split; [reflexivity|].
    apply G; discriminate.
  - split; [reflexivity|]. split; [reflexivity|]. split; [reflexivity|].
    apply G; discriminate.
Qed.

(** X19 at a store seeded at time 3. *)
Lemma check_database_health_report_witness :
  let r := check_database_health (idle None (seeded 3)) in
  committed (snd r) = seeded 3 /\ working (snd r) = seeded 3 /\
  commits (snd r) = 0 /\
  match fst r with
  | Ok (true, Some report) =>
      None <> Some 0 /\ None <> Some 1 /\
      report_activities report = 9 /\
      report_users report = List.length (users (seeded 3)) /\
      report_total_enrollments report
      = List.length (activity_participants (seeded 3)) /\
      map line_name (report_details report)
      = map Activity.name (activities (seeded 3)) /\
      (forall a, In a (activities (seeded 3)) ->
         In (mkLine (Activity.name a)
                    (List.length (participants_of (seeded 3) a))
                    (Activity.max_participants a)
                    (if Activity.is_full a (participants_of (seeded 3) a)
                     then FULL
                     else SpotsLeft (Activity.available_spots
                                       a (participants_of (seeded 3) a))))
            (report_details report))
  | Ok (false, None) => None = Some 0 \/ None = Some 1
  | _ => False
  end.
Proof. apply (@check_database_health_report None (seeded 3)), reach_seeded. Defined.
(** ** The command line *)




(** ** Rows created through the models *)


(** ** The tables of a reachable store *)

(** X22. In every store that signup and unregister requests reach from
    a seeded store, whatever the storage did: the activities are the
    nine seeded rows; every user has a valid address in lower case that
    no other user has, the role [student] and no name, grade or student
    id; every row of the association table joins an existing activity
    with an existing user, and no pair occurs twice. *)
Theorem reachable_tables db :
  reachable db ->
  (exists now, activities db = initial_rows now) /\
  NoDup (map User.email (users db)) /\
  NoDup (map User.id (users db)) /\
  (forall u, In u (users db) ->
     User.validate_email (User.email u) = Ok (User.email u) /\
     Str.lower (User.email u) = User.email u /\
     User.validate_role (User.role u) = Ok (User.role u) /\
     User.name u = None /\ User.grade u = None /\ User.student_id u = None) /\
  (forall e, In e (activity_participants db) ->
     exists a u, In a (activities db) /\ In u (users db) /\
                 Activity.id a = activity_id e /\ User.id u = user_id e) /\
  NoDup (map pair_of (activity_participants db)).
Proof.
  intros R.
  pose proof (reachable_store_ok R) as OK.
  pose proof (reachable_store_wf R) as WF.
  split; [apply (wf_activities WF)|].
  split; [apply (wf_emails WF)|].
  split; [apply (ok_user_ids OK)|].
  split; [|split; [|apply (wf_pairs WF)]].
  - intros u Hu.
    destruct (wf_defaults WF u Hu) as (H1 & H2 & H3 & H4).
    split; [now apply (ok_emails OK)|].
    split; [now apply stored_email_lower with (db := db)|].
    rewrite H4. auto.
  - intros e He.
    pose proof (wf_activity_refs WF e He) as Ha.
    pose proof (ok_refs OK e He) as Hu.
    apply in_map_iff in Ha as (a & Ea & Ha).
    apply in_map_iff in Hu as (u & Eu & Hu).
    exists a, u. auto.
Qed.

(** X22 at a store seeded at time 3. *)
Lemma reachable_tables_witness :
  (exists now, activities (seeded 3) = initial_rows now) /\
  NoDup (map User.email (users (seeded 3))) /\
  NoDup (map User.id (users (seeded 3))) /\
  (forall u, In u (users (seeded 3)) ->
     User.validate_email (User.email u) = Ok (User.email u) /\
     Str.lower (User.email u) = User.email u /\
     User.validate_role (User.role u) = Ok (User.role u) /\
     User.name u = None /\ User.grade u = None /\ User.student_id u = None) /\
  (forall e, In e (activity_participants (seeded 3)) ->
     exists a u, In a (activities (seeded 3)) /\ In u (users (seeded 3)) /\
                 Activity.id a = activity_id e /\ User.id u = user_id e) /\
  NoDup (map pair_of (activity_participants (seeded 3))).
Proof. apply reachable_tables, reach_seeded. Defined.

(** ** Requests in a row *)









(** X24. A student who has unregistered can sign up again at once: the
    activity has a free place now, the user row is still there, and after
    the signup the participants of every activity are those before the
    unregister request. *)
Theorem unregister_then_signup faults activity_name email now db msg :
  reachable db ->
  fst (unregister activity_name email (idle faults db)) = Ok msg ->
  let db1 := committed (snd (unregister activity_name email (idle faults db))) in
  let r := signup activity_name email now (idle None db1) in
  fst r = Ok (signed_up_message activity_name email) /\
  users (committed (snd r)) = users db /\
  (forall a, In a (activities db) ->
             participants_of (committed (snd r)) a = participants_of db a).
Proof.
  intros R H db1 r.
  pose proof (reachable_store_ok R) as OK.
  apply unregister_success in H as (_ & a & u & Ha & Hu & Hin & H).
  fold db1 in H. subst r. clearbody db1. subst db1.
  set (db1 := delete_enrollment db (Activity.id a) (User.id u)).
  set (r := signup activity_name email now (idle None db1)).
  assert (H : db1 = delete_enrollment db (Activity.id a) (User.id u))
    by reflexivity.
  pose proof (find_activity_some _ _ Ha) as [Ha' _].
  pose proof (find_user_some _ _ Hu) as [Hu' Eu].
  assert (Hen : enrolled_in (activity_participants db) (Activity.id a)
                            (User.id u) = true).
  { destruct (enrolled_in (activity_participants db) (Activity.id a)
                          (User.id u)) eqn:E; [reflexivity|].
    apply existsb_exists in Hin as (p & Hp & Ep).
    apply participant_in_users in Hp as [Hp Hpe]. apply Nat.eqb_eq in Ep.
    congruence. }
  assert (Hen1 : enrolled_in (activity_participants db1) (Activity.id a)
                             (User.id u) = false).
  { rewrite H. cbn [delete_enrollment activity_participants].
    rewrite enrolled_in_delete, !Nat.eqb_refl. apply andb_false_r. }
  assert (Hin1 : user_in u (participants_of db1 a) = false).
  { destruct (user_in u (participants_of db1 a)) eqn:E; [|reflexivity].
    apply existsb_exists in E as (p & Hp & Ep).
    apply participant_in_users in Hp as [_ Hpe]. apply Nat.eqb_eq in Ep.
    congruence. }
  assert (Hfull1 : Activity.is_full a (participants_of db1 a) = false).
  { pose proof (ok_capacity OK a Ha') as Hc. unfold participant_count in Hc.
    pose proof (length_filter_minus_one User.id
                  (fun v => enrolled_in (activity_participants db)
                                        (Activity.id a) (User.id v))
                  (users db) u (ok_user_ids OK) Hu' Hen) as L.
    unfold Activity.is_full. rewrite Z.geb_leb. apply Z.leb_gt.
    rewrite H, participants_delete_eq.
    unfold participants_of in Hc. lia. }
  assert (E : r = (Ok (signed_up_message activity_name email),
                   mkSession (enroll db1 a u now) (enroll db1 a u now) None 1)).
  { subst r. rewrite signup_run.
    assert (find_activity activity_name db1 = Some a) as ->
      by (rewrite H; exact Ha).
    cbv zeta. rewrite Hfull1.
    assert (find_user email db1 = Some u) as -> by (rewrite H; exact Hu).
    now rewrite Hin1, Hen1. }
  rewrite E. cbn [fst snd committed].
  split; [reflexivity|]. split; [rewrite H; reflexivity|].
  intros a' Ha1.
  destruct (Nat.eq_dec (Activity.id a') (Activity.id a)) as [Ei|Ei].
  - assert (a' = a)
      by exact (NoDup_map_inj Activity.id (activities db) a' a
                  (ok_activity_ids OK) Ha1 Ha' Ei).
    subst a'. rewrite participants_enroll_eq. unfold participants_of.
    change (users db1) with (users db).
    apply filter_ext_in. intros v Hv.
    rewrite H. cbn [delete_enrollment activity_participants].
    rewrite enrolled_in_delete, Nat.eqb_refl. cbn [andb].
    destruct (Nat.eqb_spec (User.id v) (User.id u)) as [Ev|Ev].
    + rewrite orb_true_r.
      assert (v = u)
        by exact (NoDup_map_inj User.id (users db) v u
                    (ok_user_ids OK) Hv Hu' Ev).
      subst v. now rewrite Hen.
    + cbn [negb]. now rewrite andb_true_r, orb_false_r.
  - rewrite participants_enroll_other by exact Ei.
    rewrite H. now apply participants_delete_other.
Qed.

(** X24 at a store seeded at time 3. *)
Lemma unregister_then_signup_witness :
  let db1 := committed (snd (unregister "Chess Club" "daniel@mergington.edu"
                                        (idle None (seeded 3)))) in
  let r := signup "Chess Club" "daniel@mergington.edu" 5 (idle None db1) in
  fst r = Ok (signed_up_message "Chess Club" "daniel@mergington.edu") /\
  users (committed (snd r)) = users (seeded 3) /\
  (forall a, In a (activities (seeded 3)) ->
             participants_of (committed (snd r)) a
             = participants_of (seeded 3) a).
Proof.
  apply (@unregister_then_signup None "Chess Club" "daniel@mergington.edu" 5
           (seeded 3) "Unregistered daniel@mergington.edu from Chess Club").
  - apply reach_seeded.
  - vm_compute. reflexivity.
Defined.

(** ** A reset that fails on the way *)

Lemma reset_database_run faults backup now db :
  let after faults' :=
    let r := seed_initial_data now (idle faults' empty_store) in
    (Ok (match fst r with Ok _ => true | Raise _ => false end), snd r) in
  reset_database "RESET" backup now (idle faults db) =
  match backup with
  | Raise _ => (Ok false, idle faults db)
  | Ok _ =>
      match faults with
      | Some 0 => (Ok false, idle (Some 0) db)
      | Some (S k) => after (Some k)
      | None => after None
      end
  end.
Proof.
  destruct backup as [p|e]; [|reflexivity].
  destruct faults as [[|k]|];
    cbv [reset_database recreate_tables try_except bind lift io idle ret
         raise budget committed working commits fst snd negb String.eqb
         Ascii.eqb Bool.eqb].
  - reflexivity.
  - destruct (seed_initial_data now _) as [[[]|e] s']; reflexivity.
  - destruct (seed_initial_data now _) as [[[]|e] s']; reflexivity.
Qed.

(** X25. With the confirmation typed, [reset_database] never raises, and
    it returns [True] only when the store holds the nine activities
    after the two commits of the seed. When the storage fails after the
    tables were dropped, the data is not brought back: the store is left
    empty or with the nine activities only, and the function returns
    [False]. Nothing is dropped when the backup or the first operation
    fails. *)
Theorem reset_database_under_faults faults backup now db :
  let r := reset_database "RESET" backup now (idle faults db) in
  (exists b, fst r = Ok b) /\
  working (snd r) = committed (snd r) /\
  (fst r = Ok true ->
   activities (committed (snd r)) = initial_rows now /\ commits (snd r) = 2) /\
  (fst r = Ok false ->
   committed (snd r) = db \/
   committed (snd r) = empty_store \/
   committed (snd r) = activities_only now empty_store) /\
  (faults = Some 0 -> r = (Ok false, idle (Some 0) db)).
Proof.
  intros r. subst r.
  pose proof (reset_database_run faults backup now db) as E.
  cbv zeta in E. rewrite E. clear E.
  assert (A : forall f,
    let r := (Ok (match fst (seed_initial_data now (idle f empty_store)) with
                  | Ok _ => true | Raise _ => false end),
              snd (seed_initial_data now (idle f empty_store))) in
    (exists b : bool, fst r = Ok b) /\
    working (snd r) = committed (snd r) /\
    (fst r = Ok true ->
     activities (committed (snd r)) = initial_rows now /\ commits (snd r) = 2) /\
    (fst r = Ok false ->
     committed (snd r) = db \/
     committed (snd r) = empty_store \/
     committed (snd r) = activities_only now empty_store)).
  { intros f. cbv zeta. cbn [fst snd].
    destruct (seed_committed f now empty_store) as (Hw & _ & He).
    specialize (He eq_refl).
    split; [eexists; reflexivity|]. split; [exact Hw|].
    destruct He as [[H1 H2]|[[H1 H2]|(H1 & H2 & H3)]].
    - destruct (seed_cases f now empty_store eq_refl)
        as [_ [(C1 & _ & [e Ee] & _)|[(C1 & _)|(C1 & _)]]];
        try (rewrite C1 in H2; discriminate).
      rewrite Ee. split; [discriminate|]. auto.
    - destruct (seed_cases f now empty_store eq_refl)
        as [_ [(C1 & _)|[(C1 & _ & [e Ee])|(C1 & _)]]];
        try (rewrite C1 in H2; discriminate).
      rewrite Ee. split; [discriminate|]. auto.
    - rewrite H3. split; [auto|]. discriminate. }
  destruct backup as [p|e].
  2:{ split; [eexists; reflexivity|]. split; [reflexivity|].
      split; [discriminate|]. split; [auto|]. intros ->. reflexivity. }
  destruct faults as [[|k]|].
  - split; [eexists; reflexivity|]. split; [reflexivity|].
    split; [discriminate|]. split; [auto|]. reflexivity.
  - destruct (A (Some k)) as (A1 & A2 & A3 & A4).
    split; [exact A1|]. split; [exact A2|]. split; [exact A3|].
    split; [exact A4|]. discriminate.
  - destruct (A None) as (A1 & A2 & A3 & A4).
    split; [exact A1|]. split; [exact A2|]. split; [exact A3|].
    split; [exact A4|]. discriminate.
Qed.
